(** * FinWise: a shallow embedding of [app.py] and [config.py]

    The development follows the layout of the program: Python values
    (strings, exceptions), the [re] pattern of the password policy,
    [hashlib.sha256], the two SQLite tables, the authentication
    functions, the session, the advice gateway and the dashboard
    aggregation.  Definitions come first, theorems afterwards. *)

From Stdlib Require Import NArith ZArith List Bool Lia String Ascii.
From Stdlib Require Import Sorting.Sorted FinFun.
From Stdlib Require Floats.PrimFloat.
Import ListNotations.

(* ================================================================= *)
(** ** Python strings *)

(** A Python [str] is a sequence of Unicode code points.  Literals of
    the program are written with [str "..."]. *)
Module PyStr.

Definition pystr := list N.

Definition ch (a : ascii) : N := N_of_ascii a.

Definition str (s : string) : pystr := map N_of_ascii (list_ascii_of_string s).

Definition eqb (s t : pystr) : bool :=
  if list_eq_dec N.eq_dec s t then true else false.

Definition in_ranges (table : list (N * N)) (c : N) : bool :=
  existsb (fun r => (fst r <=? c)%N && (c <=? snd r)%N) table.

(** Code points of general category Nd (Unicode 14.0, the database of
    CPython 3.11): what [\d] matches in a [str] pattern. *)
Definition decimal_ranges : list (N * N) :=
  [(48, 57); (1632, 1641); (1776, 1785); (1984, 1993); (2406, 2415);
   (2534, 2543); (2662, 2671); (2790, 2799); (2918, 2927); (3046, 3055);
   (3174, 3183); (3302, 3311); (3430, 3439); (3558, 3567); (3664, 3673);
   (3792, 3801); (3872, 3881); (4160, 4169); (4240, 4249); (6112, 6121);
   (6160, 6169); (6470, 6479); (6608, 6617); (6784, 6793); (6800, 6809);
   (6992, 7001); (7088, 7097); (7232, 7241); (7248, 7257); (42528, 42537);
   (43216, 43225); (43264, 43273); (43472, 43481); (43504, 43513);
   (43600, 43609); (44016, 44025); (65296, 65305); (66720, 66729);
   (68912, 68921); (69734, 69743); (69872, 69881); (69942, 69951);
   (70096, 70105); (70384, 70393); (70736, 70745); (70864, 70873);
   (71248, 71257); (71360, 71369); (71472, 71481); (71904, 71913);
   (72016, 72025); (72784, 72793); (73040, 73049); (73120, 73129);
   (92768, 92777); (92864, 92873); (93008, 93017); (120782, 120831);
   (123200, 123209); (123632, 123641); (125264, 125273);
   (130032, 130041)]%N.

Definition isdecimal (c : N) : bool := in_ranges decimal_ranges c.

(** Code points for which [str.isspace] holds: what [strip()] and
    [split()] without argument treat as whitespace. *)
Definition space_ranges : list (N * N) :=
  [(9, 13); (28, 32); (133, 133); (160, 160); (5760, 5760);
   (8192, 8202); (8232, 8233); (8239, 8239); (8287, 8287);
   (12288, 12288)]%N.

Definition isspace (c : N) : bool := in_ranges space_ranges c.

(** [s.lstrip()], [s.rstrip()], [s.strip()]. *)
Fixpoint lstrip (s : pystr) : pystr :=
  match s with
  | c :: s' => if isspace c then lstrip s' else s
  | [] => []
  end.

Definition rstrip (s : pystr) : pystr := rev (lstrip (rev s)).

Definition strip (s : pystr) : pystr := rstrip (lstrip s).

(** [s.split()]: the maximal runs of non-whitespace, in order.  [cur]
    is the run being read, kept reversed. *)
Fixpoint split_from (cur : pystr) (s : pystr) : list pystr :=
  match s with
  | [] => match cur with [] => [] | _ => [rev cur] end
  | c :: s' =>
      if isspace c
      then match cur with
           | [] => split_from [] s'
           | _ => rev cur :: split_from [] s'
           end
      else split_from (c :: cur) s'
  end.

Definition split (s : pystr) : list pystr := split_from [] s.

End PyStr.
Import PyStr.

(* ================================================================= *)
(** ** The fragment of [re] used by the password policy *)

Module Re.

(** Members of a bracketed set. *)
Inductive item :=
| LITERAL (c : N)
| RANGE (lo hi : N)
| CATEGORY_DIGIT.

(** One-character matchers: [.] and [[...]]. *)
Inductive atom :=
| ANY
| IN (items : list item).

#[warnings="-register-all"]
Inductive node :=
| AT_BEGINNING                         (* ^ *)
| AT_END                               (* $ *)
| ASSERT (p : list node)               (* (?=...) *)
| ATOM (a : atom)
| MAX_REPEAT (min : nat) (a : atom).   (* a{min,}, and a* for min = 0 *)

Definition pattern := list node.

Definition newline : N := 10.

Definition item_matches (i : item) (c : N) : bool :=
  match i with
  | LITERAL l => (c =? l)%N
  | RANGE lo hi => (lo <=? c)%N && (c <=? hi)%N
  | CATEGORY_DIGIT => isdecimal c
  end.

(** Without DOTALL, [.] matches anything but a newline. *)
Definition atom_matches (a : atom) (c : N) : bool :=
  match a with
  | ANY => negb (c =? newline)%N
  | IN items => existsb (fun i => item_matches i c) items
  end.

(** Without MULTILINE, [$] matches at the end of the string and just
    before a newline that ends the string. *)
Definition at_end (rest : pystr) : bool :=
  match rest with
  | [] => true
  | [c] => (c =? newline)%N
  | _ => false
  end.

(** Greedy repetition with backtracking: take one more character when
    possible, and fall back to the continuation [k] once [min]
    repetitions are done. *)
Fixpoint max_repeat (a : atom) (k : nat -> pystr -> bool)
         (min : nat) (pos : nat) (s : pystr) {struct s} : bool :=
  match min with
  | O =>
      match s with
      | c :: s' => (atom_matches a c && max_repeat a k O (S pos) s') || k pos s
      | [] => k pos s
      end
  | S m =>
      match s with
      | c :: s' => atom_matches a c && max_repeat a k m (S pos) s'
      | [] => false
      end
  end.

Definition cont := nat -> pystr -> bool.

Definition accept : cont := fun _ _ => true.

(** [node_matches n k pos s]: node [n] matches at offset [pos] of the
    subject, [s] being the subject from [pos] on, and the rest of the
    pattern, [k], matches after it.  A lookahead runs its own
    sub-pattern from the same offset and consumes nothing. *)
Fixpoint node_matches (n : node) (k : cont) (pos : nat) (s : pystr)
         {struct n} : bool :=
  match n with
  | AT_BEGINNING => Nat.eqb pos 0 && k pos s
  | AT_END => at_end s && k pos s
  | ASSERT q =>
      (fix seq (q : list node) : cont :=
         match q with
         | [] => accept
         | m :: q' => node_matches m (seq q')
         end) q pos s
      && k pos s
  | ATOM a =>
      match s with
      | c :: s' => atom_matches a c && k (S pos) s'
      | [] => false
      end
  | MAX_REPEAT min a => max_repeat a k min pos s
  end.

Definition matches (p : pattern) : cont := fold_right node_matches accept p.

(** [re.match(p, s)] anchors at offset 0; the result is modelled by
    whether a match object is returned. *)
Definition re_match (p : pattern) (s : pystr) : bool := matches p 0 s.

End Re.
Import Re.

(* ================================================================= *)
(** ** Password policy ([validate_password]) *)

Definition specials : list item :=
  [LITERAL (ch "@"); LITERAL (ch "$"); LITERAL (ch "!"); LITERAL (ch "%");
   LITERAL (ch "*"); LITERAL (ch "?"); LITERAL (ch "&")].

Definition lower_set : atom := IN [RANGE (ch "a") (ch "z")].
Definition upper_set : atom := IN [RANGE (ch "A") (ch "Z")].
Definition digit_set : atom := IN [CATEGORY_DIGIT].
Definition special_set : atom := IN specials.
Definition allowed_set : atom :=
  IN (RANGE (ch "A") (ch "Z") :: RANGE (ch "a") (ch "z") :: CATEGORY_DIGIT :: specials).

(** r'^(?=.*[a-z])(?=.*[A-Z])(?=.*\d)(?=.*[@$!%*?&])[A-Za-z\d@$!%*?&]{8,}$' *)
Definition password_pattern : pattern :=
  [AT_BEGINNING;
   ASSERT [MAX_REPEAT 0 ANY; ATOM lower_set];
   ASSERT [MAX_REPEAT 0 ANY; ATOM upper_set];
   ASSERT [MAX_REPEAT 0 ANY; ATOM digit_set];
   ASSERT [MAX_REPEAT 0 ANY; ATOM special_set];
   MAX_REPEAT 8 allowed_set;
   AT_END].

Definition validate_password (password : pystr) : bool :=
  re_match password_pattern password.

(* ================================================================= *)
(** ** Exceptions *)

(** The exception classes the program meets.  [KeyboardInterrupt] and
    [SystemExit] derive from [BaseException] only; every other class
    derives from [Exception]. *)
Inductive exc_class :=
| UnicodeEncodeError
| IntegrityError
| IndexError
| AttributeError
| ValueError
| RuntimeError
| KeyboardInterrupt
| SystemExit.

Definition isinstance_Exception (c : exc_class) : bool :=
  match c with
  | KeyboardInterrupt | SystemExit => false
  | _ => true
  end.

(** What a call of the program does: it returns, or an exception
    leaves it. *)
Inductive result (A : Type) :=
| Return (a : A)
| Raise (c : exc_class).
Arguments Return {A} a.
Arguments Raise {A} c.

Definition bind {A B} (r : result A) (f : A -> result B) : result B :=
  match r with
  | Return a => f a
  | Raise c => Raise c
  end.

Notation "x <- r ;; k" := (bind r (fun x => k))
  (at level 61, r at next level, right associativity).

(** The values the authentication functions return: [True], [False]
    and the string ["invalid"]. *)
Inductive value :=
| VBool (b : bool)
| VStr (s : pystr).

Definition truthy (v : value) : bool :=
  match v with
  | VBool b => b
  | VStr [] => false
  | VStr _ => true
  end.

(* ================================================================= *)
(** ** [str.encode()] and [hashlib.sha256] *)

Module Utf8.
Local Open Scope N_scope.

(** A lone surrogate has no UTF-8 form: [encode] raises
    [UnicodeEncodeError] on it.  Nothing above U+10FFFF is a character
    of a Python string. *)
Definition encode_char (c : N) : option (list N) :=
  if c <? 0x80 then Some [c]
  else if c <? 0x800 then Some [0xC0 + c / 64; 0x80 + c mod 64]
  else if c <? 0x10000 then
    if (0xD800 <=? c) && (c <=? 0xDFFF) then None
    else Some [0xE0 + c / 4096; 0x80 + (c / 64) mod 64; 0x80 + c mod 64]
  else if c <? 0x110000 then
    Some [0xF0 + c / 262144; 0x80 + (c / 4096) mod 64;
          0x80 + (c / 64) mod 64; 0x80 + c mod 64]
  else None.

Fixpoint encode (s : pystr) : result (list N) :=
  match s with
  | [] => Return []
  | c :: s' =>
      match encode_char c with
      | Some bs => rest <- encode s' ;; Return (bs ++ rest)
      | None => Raise UnicodeEncodeError
      end
  end.

End Utf8.

Module Sha256.
Local Open Scope N_scope.

Definition w32 : N := 0x100000000.

Definition add32 (a b : N) : N := (a + b) mod w32.

Definition rotr (n x : N) : N :=
  N.lor (N.shiftr x n) (N.shiftl x (32 - n) mod w32).

Definition shr (n x : N) : N := N.shiftr x n.

Definition not32 (x : N) : N := N.lxor x 0xFFFFFFFF.

Definition Ch (x y z : N) : N := N.lxor (N.land x y) (N.land (not32 x) z).

Definition Maj (x y z : N) : N :=
  N.lxor (N.lxor (N.land x y) (N.land x z)) (N.land y z).

Definition bsig0 (x : N) : N := N.lxor (N.lxor (rotr 2 x) (rotr 13 x)) (rotr 22 x).
Definition bsig1 (x : N) : N := N.lxor (N.lxor (rotr 6 x) (rotr 11 x)) (rotr 25 x).
Definition ssig0 (x : N) : N := N.lxor (N.lxor (rotr 7 x) (rotr 18 x)) (shr 3 x).
Definition ssig1 (x : N) : N := N.lxor (N.lxor (rotr 17 x) (rotr 19 x)) (shr 10 x).

(** The round constants: the first 32 bits of the fractional parts of
    the cube roots of the first 64 primes. *)
Definition K : list N :=
  [1116352408; 1899447441; 3049323471; 3921009573; 961987163; 1508970993;
   2453635748; 2870763221; 3624381080; 310598401; 607225278; 1426881987;
   1925078388; 2162078206; 2614888103; 3248222580; 3835390401; 4022224774;
   264347078; 604807628; 770255983; 1249150122; 1555081692; 1996064986;
   2554220882; 2821834349; 2952996808; 3210313671; 3336571891; 3584528711;
   113926993; 338241895; 666307205; 773529912; 1294757372; 1396182291;
   1695183700; 1986661051; 2177026350; 2456956037; 2730485921; 2820302411;
   3259730800; 3345764771; 3516065817; 3600352804; 4094571909; 275423344;
   430227734; 506948616; 659060556; 883997877; 958139571; 1322822218;
   1537002063; 1747873779; 1955562222; 2024104815; 2227730452; 2361852424;
   2428436474; 2756734187; 3204031479; 3329325298].

(** The initial state: the same of the square roots of the first 8
    primes. *)
Definition H0 : list N :=
  [1779033703; 3144134277; 1013904242; 2773480762;
   1359893119; 2600822924; 528734635; 1541459225].

(** Big-endian bytes of [x], [n] of them. *)
Fixpoint be_bytes (n : nat) (x : N) : list N :=
  match n with
  | O => []
  | S m => be_bytes m (x / 256) ++ [x mod 256]
  end.

Definition of_be_bytes (bs : list N) : N :=
  fold_left (fun acc b => acc * 256 + b) bs 0.

(** The message, a 1 bit, zeros up to 56 modulo 64 bytes, and the bit
    length on 8 bytes. *)
Definition pad (msg : list N) : list N :=
  let len := N.of_nat (List.length msg) in
  let zeros := N.to_nat ((55 + 64 - len mod 64) mod 64) in
  msg ++ [0x80] ++ repeat 0 zeros ++ be_bytes 8 (8 * len).

(** Cut into pieces of [n] elements; [fuel] bounds the number of
    pieces. *)
Fixpoint chunks {A} (n : nat) (fuel : nat) (l : list A) : list (list A) :=
  match fuel, l with
  | _, [] => []
  | O, _ => []
  | S f, _ => firstn n l :: chunks n f (skipn n l)
  end.

Definition words_of_block (block : list N) : list N :=
  map of_be_bytes (chunks 4 16 block).

(** The message schedule: sixteen words of the block, extended to
    sixty-four. *)
Definition schedule_step (w : list N) (t : nat) : list N :=
  w ++ [add32 (add32 (ssig1 (nth (t - 2) w 0)) (nth (t - 7) w 0))
              (add32 (ssig0 (nth (t - 15) w 0)) (nth (t - 16) w 0))].

Definition schedule (block : list N) : list N :=
  fold_left schedule_step (seq 16 48) (words_of_block block).

Definition round (st : list N) (kw : N * N) : list N :=
  match st with
  | [a; b; c; d; e; f; g; h] =>
      let t1 := add32 (add32 (add32 h (bsig1 e)) (add32 (Ch e f g) (fst kw))) (snd kw) in
      let t2 := add32 (bsig0 a) (Maj a b c) in
      [add32 t1 t2; a; b; c; add32 d t1; e; f; g]
  | _ => st
  end.

Definition compress (st : list N) (block : list N) : list N :=
  match st, fold_left round (combine K (schedule block)) st with
  | [h0; h1; h2; h3; h4; h5; h6; h7], [a; b; c; d; e; f; g; h] =>
      [add32 h0 a; add32 h1 b; add32 h2 c; add32 h3 d;
       add32 h4 e; add32 h5 f; add32 h6 g; add32 h7 h]
  | _, _ => st
  end.

Definition final_state (msg : list N) : list N :=
  let padded := pad msg in
  fold_left compress (chunks 64 (List.length padded) padded) H0.

(** The digest, read as one 256-bit number. *)
Definition digest (msg : list N) : N :=
  fold_left (fun acc w => acc * w32 + w) (final_state msg) 0.

Definition hex_digit (d : N) : N :=
  if d <? 10 then 48 + d else 87 + d.

(** [n] lower-case hexadecimal digits of [x], most significant first. *)
Fixpoint hex (n : nat) (x : N) : pystr :=
  match n with
  | O => []
  | S m => hex m (x / 16) ++ [hex_digit (x mod 16)]
  end.

Definition hexdigest (msg : list N) : pystr := hex 64 (digest msg).

End Sha256.

(** hashlib.sha256(password.encode()).hexdigest() *)
Definition hash_password (password : pystr) : result pystr :=
  bytes <- Utf8.encode password ;; Return (Sha256.hexdigest bytes).

(* ================================================================= *)
(** ** The [users] table and the authentication functions *)

(** users(id INTEGER PRIMARY KEY AUTOINCREMENT, username TEXT UNIQUE,
          email TEXT UNIQUE NOT NULL, password TEXT NOT NULL) *)
Record user_row := mk_user {
  id : Z;
  u_username : pystr;
  u_email : pystr;
  u_password : pystr
}.

(** The rows in insertion order, and the AUTOINCREMENT counter of the
    table. *)
Record users_table := mk_users {
  u_rows : list user_row;
  u_seq : Z
}.

Definition no_users : users_table := mk_users [] 0.

(** Binding a [str] parameter encodes it. *)
Definition bind_text (s : pystr) : result pystr :=
  _ <- Utf8.encode s ;; Return s.

(** INSERT INTO users (username, email, password) VALUES (?, ?, ?):
    a row that repeats a username or an email violates UNIQUE, the
    statement raises and writes nothing. *)
Definition insert_user (t : users_table) (username email password : pystr)
  : result unit * users_table :=
  match (u <- bind_text username ;; e <- bind_text email ;;
         p <- bind_text password ;; Return (u, e, p)) with
  | Raise c => (Raise c, t)
  | Return (u, e, p) =>
      if existsb (fun r => eqb (u_username r) u) (u_rows t)
         || existsb (fun r => eqb (u_email r) e) (u_rows t)
      then (Raise IntegrityError, t)
      else (Return tt,
            mk_users (u_rows t ++ [mk_user (u_seq t + 1) u e p]) (u_seq t + 1))
  end.

(** SELECT * FROM users WHERE email=? AND password=?, then
    [fetchone()]. *)
Definition select_user (t : users_table) (email password : pystr)
  : result (option user_row) :=
  e <- bind_text email ;; p <- bind_text password ;;
  Return (find (fun r => eqb (u_email r) e && eqb (u_password r) p) (u_rows t)).

(** UPDATE users SET password=? WHERE email=? *)
Definition update_password (t : users_table) (password email : pystr)
  : result unit * users_table :=
  match (p <- bind_text password ;; e <- bind_text email ;; Return (p, e)) with
  | Raise c => (Raise c, t)
  | Return (p, e) =>
      (Return tt,
       mk_users
         (map (fun r => if eqb (u_email r) e
                        then mk_user (id r) (u_username r) (u_email r) p
                        else r)
              (u_rows t))
         (u_seq t))
  end.

Definition login_user (t : users_table) (email password : pystr)
  : result (option user_row) :=
  h <- hash_password password ;; select_user t email h.

Definition register_user (t : users_table) (username email password : pystr)
  : result value * users_table :=
  if negb (validate_password password) then (Return (VStr (str "invalid")), t)
  else
    match hash_password password with
    | Raise c => (Raise c, t)
    | Return h =>
        match insert_user t username email h with
        | (Return _, t') => (Return (VBool true), t')
        | (Raise IntegrityError, t') => (Return (VBool false), t')
        | (Raise c, t') => (Raise c, t')
        end
    end.

Definition reset_password (t : users_table) (email new_password : pystr)
  : result value * users_table :=
  if negb (validate_password new_password) then (Return (VStr (str "invalid")), t)
  else
    match hash_password new_password with
    | Raise c => (Raise c, t)
    | Return h =>
        match update_password t h email with
        | (Return _, t') => (Return (VBool true), t')
        | (Raise c, t') => (Raise c, t')
        end
    end.

(* ================================================================= *)
(** ** Session state and the logged-out forms *)

Module session_state.
Record t := mk {
  logged_in : bool;
  username : option pystr;
  email : option pystr;
  page : pystr
}.
End session_state.

(** The first entry of the menu: a house, U+1F3E0, and [" Home"]. *)
Definition home : pystr := 0x1F3E0%N :: str " Home".

(** The state a new session starts in. *)
Definition session_init : session_state.t :=
  session_state.mk false None None home.

(** What a form shows after its button is pressed. *)
Inductive notice :=
| WelcomeBack (username : pystr)    (* st.success, Login *)
| InvalidLogin                      (* st.error "Invalid username or password" *)
| FillAllFields                     (* st.warning "Please fill all fields" *)
| WeakPassword                      (* st.warning "Password must be 8+ chars, ..." *)
| RegistrationSuccessful            (* st.success *)
| AlreadyExists                     (* st.error "Username or Email already exists." *)
| ResetSuccessful                   (* st.success *)
| EmailNotFound                     (* st.error "Email not found." *)
| ExpenseAdded (category : pystr).  (* st.success "... Auto-categorized as ..." *)

Definition empty (s : pystr) : bool :=
  match s with [] => true | _ => false end.

(** The Login button. *)
Definition login_button (s : session_state.t) (t : users_table)
           (email password : pystr) : result (session_state.t * notice) :=
  user <- login_user t email password ;;
  match user with
  | Some row =>
      Return (session_state.mk true (Some (u_username row)) (Some (u_email row))
                               (session_state.page s),
              WelcomeBack (u_username row))
  | None => Return (s, InvalidLogin)
  end.

(** The Register button. *)
Definition register_button (t : users_table) (username email password : pystr)
  : result notice * users_table :=
  if empty username || empty email || empty password then (Return FillAllFields, t)
  else if negb (validate_password password) then (Return WeakPassword, t)
  else
    match register_user t username email password with
    | (Return v, t') =>
        (Return (if truthy v then RegistrationSuccessful else AlreadyExists), t')
    | (Raise c, t') => (Raise c, t')
    end.

(** The Reset Password button. *)
Definition reset_button (t : users_table) (email new_password : pystr)
  : result notice * users_table :=
  if empty email || empty new_password then (Return FillAllFields, t)
  else if negb (validate_password new_password) then (Return WeakPassword, t)
  else
    match reset_password t email new_password with
    | (Return v, t') =>
        (Return (if truthy v then ResetSuccessful else EmailNotFound), t')
    | (Raise c, t') => (Raise c, t')
    end.

(** The Logout button of the sidebar. *)
Definition logout_button (s : session_state.t) : session_state.t :=
  session_state.mk false None (session_state.email s) (session_state.page s).

(* ================================================================= *)
(** ** The advice gateway ([config.py]) *)

(** What a call into the generative-language client does: it returns,
    or it raises an exception of some class whose [str()] is [msg]. *)
Inductive outcome (A : Type) :=
| Ok (a : A)
| Fail (c : exc_class) (msg : pystr).
Arguments Ok {A} a.
Arguments Fail {A} c msg.

(** A response object: what reading its [text] attribute does, and its
    [str()]. *)
Record response := mk_response {
  text : outcome pystr;
  resp_str : pystr
}.

(** The client library: [genai.GenerativeModel(name)] and
    [model.generate_content(prompt)]. *)
Record genai := mk_genai {
  GenerativeModel : pystr -> outcome unit;
  generate_content : pystr -> outcome response
}.

Definition MODEL_NAME : pystr := str "gemini-2.5-flash".

Definition get_model (g : genai) : outcome unit := GenerativeModel g MODEL_NAME.

(** getattr(resp, "text", str(resp)): the default stands in when the
    lookup raises [AttributeError], and only then. *)
Definition getattr_text (resp : response) : outcome pystr :=
  match text resp with
  | Ok v => Ok v
  | Fail AttributeError _ => Ok (resp_str resp)
  | Fail c msg => Fail c msg
  end.

Definition error_prefix : pystr := str "Error: ".

(** The body of the [try] is [body]; [except Exception as e] turns
    what it catches into f"Error: {e}". *)
Definition get_gemini_response (g : genai) (prompt : pystr) : result pystr :=
  let body :=
    match get_model g with
    | Ok _ =>
        match generate_content g prompt with
        | Ok resp => getattr_text resp
        | Fail c msg => Fail c msg
        end
    | Fail c msg => Fail c msg
    end in
  match body with
  | Ok v => Return v
  | Fail c msg =>
      if isinstance_Exception c then Return (error_prefix ++ msg) else Raise c
  end.

(* ================================================================= *)
(** ** Sums ([Series.sum()] and [DataFrame.groupby(...)[...].sum()]) *)

(** Amounts are floats, and pandas adds them up with kernels of its
    own, which are taken as parameters.  A grouped sum keeps one
    accumulator for each group: it starts from [start], is fed the
    values of the rows of the group one after the other, in row order
    ([feed]: a compensated addition), and gives the total of the group
    in the end ([total]).  [Series.sum()] is another kernel, over the
    values of the column ([series_sum]). *)
Record summation (amount : Type) := mk_summation {
  acc : Type;
  start : acc;
  feed : acc -> amount -> acc;
  total : acc -> amount;
  series_sum : list amount -> amount
}.
Arguments acc {amount} s.
Arguments start {amount} s.
Arguments feed {amount} s a v.
Arguments total {amount} s a.
Arguments series_sum {amount} s vals.

(** The grouped kernel run over the values of one group. *)
Definition group_sum {amount} (sums : summation amount) (vals : list amount)
  : amount :=
  total sums (fold_left (feed sums) vals (start sums)).

Section GroupBy.
Context {key amount : Type}.
Variable compare : key -> key -> comparison.
Variable sums : summation amount.

(** One more value for group [k]: the groups are kept in ascending
    order of their keys, and the accumulator of group [k] is fed the
    value. *)
Fixpoint upsert (k : key) (v : amount) (groups : list (key * acc sums))
  : list (key * acc sums) :=
  match groups with
  | [] => [(k, feed sums (start sums) v)]
  | (k', a) :: rest =>
      match compare k k' with
      | Lt => (k, feed sums (start sums) v) :: groups
      | Eq => (k', feed sums a v) :: rest
      | Gt => (k', a) :: upsert k v rest
      end
  end.

(** The accumulators after all the rows, then their totals. *)
Definition groupby_acc {row} (key_of : row -> key) (col : row -> amount)
           (df : list row) : list (key * acc sums) :=
  fold_left (fun groups r => upsert (key_of r) (col r) groups) df [].

Definition groupby_sum {row} (key_of : row -> key) (col : row -> amount)
           (df : list row) : list (key * amount) :=
  map (fun g => (fst g, total sums (snd g))) (groupby_acc key_of col df).






End GroupBy.

(** Two instances of the kernels. *)

(** Exact arithmetic: both kernels add up integers. *)
Definition exact_sums : summation Z :=
  mk_summation Z Z 0%Z Z.add (fun a => a) (fun vals => fold_left Z.add vals 0%Z).

(** Binary64, the amounts of the program.  The grouped kernel is the
    compensated (Kahan) sum of pandas ([group_sum] of its groupby
    library): a value that is not a number is skipped, and a
    compensation that is not a number is reset.  The kernel of
    [Series.sum()] stays a parameter. *)
Module Binary64.
Import PrimFloat.

Definition isnan (x : float) : bool := negb (PrimFloat.eqb x x).

Definition kahan_feed (a : float * float) (val : float) : float * float :=
  if isnan val then a
  else
    let sumx := fst a in
    let compensation := snd a in
    let y := PrimFloat.sub val compensation in
    let t := PrimFloat.add sumx y in
    let c := PrimFloat.sub (PrimFloat.sub t sumx) y in
    (t, if isnan c then 0%float else c).

Definition sums (series : list float -> float) : summation float :=
  mk_summation float (float * float) (0%float, 0%float) kahan_feed fst series.

(** Adding in order, from 0. *)
Definition plain_sum (vals : list float) : float :=
  fold_left PrimFloat.add vals 0%float.

(** Some amounts. *)
Definition one : float := 1%float.
Definition fifty : float := 50%float.
Definition hundred : float := 100%float.
Definition hundred_fifty : float := 150%float.
Definition ten_to_16 : float := 1e16%float.
Definition ten_to_16_plus_2 : float := 10000000000000002%float.

End Binary64.

(* ================================================================= *)
(** ** SQLite: the values of the [user_id] column *)

(** A binary64 number by its value: the ratio of an integer and a
    positive integer, or an infinity. *)
Inductive real :=
| Ratio (n : Z) (d : positive)
| Infinite (negative : bool).

(** A value of the [user_id] column, with its storage class. *)
Inductive sqlval :=
| SqlInteger (z : Z)
| SqlReal (r : real)
| SqlText (s : pystr).

(** The column is declared INTEGER, and the program binds a [str] to
    it.  SQLite then reads the text as a number where it can: a text
    that is written as a number is converted (['007'] is stored as the
    integer 7), any other text is stored as it is.  Where the number
    cannot be taken from its digits exactly, SQLite computes it in
    floating point, in a way that depends on its version and on the
    machine: that number is [rounded text], a parameter. *)
Class Rounding := rounded : pystr -> real.

Module Sqlite.
Local Open Scope Z_scope.

Definition SMALLEST_INT64 : Z := - 2 ^ 63.
Definition LARGEST_INT64 : Z := 2 ^ 63 - 1.

(** [sqlite3Isspace] and [sqlite3Isdigit], on the bytes of the text: a
    code point above 127 is encoded by bytes that are neither. *)
Definition Isspace (c : N) : bool := ((9 <=? c) && (c <=? 13) || (c =? 32))%N.
Definition Isdigit (c : N) : bool := ((ch "0" <=? c) && (c <=? ch "9"))%N.

Fixpoint skip_spaces (z : pystr) : pystr :=
  match z with
  | c :: z' => if Isspace c then skip_spaces z' else z
  | [] => []
  end.

(** An optional sign: whether it is a minus, and what follows. *)
Definition sign (z : pystr) : bool * pystr :=
  match z with
  | c :: z' =>
      if (c =? ch "-")%N then (true, z')
      else if (c =? ch "+")%N then (false, z')
      else (false, z)
  | [] => (false, [])
  end.

(** The digits of the significand: its value so far, the number of
    digits so far, and what follows. *)
Fixpoint significand_digits (z : pystr) (s : Z) (nDigit : nat) : Z * nat * pystr :=
  match z with
  | c :: z' =>
      if Isdigit c
      then significand_digits z' (s * 10 + (Z.of_N c - Z.of_N (ch "0"))) (S nDigit)
      else (s, nDigit, z)
  | [] => (s, nDigit, [])
  end.

(** The digits of the exponent: one more digit is taken in while the
    exponent is below 10000, and sets it to 10000 after that. *)
Fixpoint exponent_digits (z : pystr) (e : Z) (eValid : bool) : Z * bool * pystr :=
  match z with
  | c :: z' =>
      if Isdigit c
      then exponent_digits z'
             (if e <? 10000 then e * 10 + (Z.of_N c - Z.of_N (ch "0")) else 10000)
             true
      else (e, eValid, z)
  | [] => (e, eValid, [])
  end.

(** A text that is written as a number: its sign, all the digits of
    its significand as one integer, the power of ten that goes with
    them (the exponent, less the number of digits of the fraction),
    and whether it is written as an integer, with no point and no
    exponent. *)
Record decimal := mk_decimal {
  minus : bool;
  significand : Z;
  exponent : Z;
  pure_integer : bool
}.

(** The fraction, if a point comes next: the significand and the
    number of digits with it, whether there is a point, and what
    follows. *)
Definition fraction (z : pystr) (s : Z) (nDigit : nat) : Z * nat * bool * pystr :=
  match z with
  | c :: z' =>
      if (c =? ch ".")%N
      then let '(s', n', rest) := significand_digits z' s nDigit in
           (s', n', true, rest)
      else (s, nDigit, false, z)
  | [] => (s, nDigit, false, [])
  end.

(** The exponent, if [e] or [E] comes next: its value, whether it has
    a digit ([eValid], which holds when there is no exponent), whether
    there is one, and what follows. *)
Definition exponent_part (z : pystr) : Z * bool * bool * pystr :=
  match z with
  | c :: z' =>
      if (c =? ch "e")%N || (c =? ch "E")%N
      then let '(eneg, digits) := sign z' in
           let '(e, eValid, rest) := exponent_digits digits 0 false in
           (if eneg then - e else e, eValid, true, rest)
      else (0, true, false, z)
  | [] => (0, true, false, [])
  end.

(** The syntax that [sqlite3AtoF] accepts: spaces, a sign, digits, a
    point and digits, an exponent with at least one digit, spaces; at
    least one digit in the significand, and nothing else. *)
Definition parse (text : pystr) : option decimal :=
  match skip_spaces text with
  | [] => None
  | z0 =>
      let '(neg, z1) := sign z0 in
      let '(s1, n1, z2) := significand_digits z1 0 0 in
      let '(s2, n2, dot, z3) := fraction z2 s1 n1 in
      let '(e, eValid, has_e, z4) := exponent_part z3 in
      match skip_spaces z4 with
      | [] =>
          if (0 <? n2)%nat && eValid
          then Some (mk_decimal neg s2 (e - Z.of_nat (n2 - n1))
                                (negb dot && negb has_e))
          else None
      | _ :: _ => None
      end
  end.

(** The significand with its sign. *)
Definition signed (n : decimal) : Z :=
  if minus n then - significand n else significand n.

(** The number, where it is a whole number of at most 2^53 in absolute
    value: SQLite then gets it from the digits by multiplying or
    dividing an integer by ten, and no rounding takes place. *)
Definition exact (n : decimal) : option Z :=
  if significand n =? 0 then Some 0
  else if 0 <=? exponent n then
    if exponent n <=? 16 then
      let v := significand n * 10 ^ exponent n in
      if v <=? 2 ^ 53 then Some (if minus n then - v else v) else None
    else None
  else
    let p := 10 ^ (- exponent n) in
    if (significand n mod p =? 0) && (significand n / p <=? 2 ^ 53)
    then Some (if minus n then - (significand n / p) else significand n / p)
    else None.

(** [sqlite3VdbeIntegerAffinity]: a whole number strictly between the
    least and the greatest 64-bit integer becomes an integer. *)
Definition integer_of_real (r : real) : sqlval :=
  match r with
  | Ratio n d =>
      if (n mod Zpos d =? 0) && (SMALLEST_INT64 <? n / Zpos d)
         && (n / Zpos d <? LARGEST_INT64)
      then SqlInteger (n / Zpos d)
      else SqlReal r
  | Infinite _ => SqlReal r
  end.

(** [applyNumericAffinity]: a text that is written as an integer
    within 64 bits is that integer; another text that is written as a
    number is that number in floating point, and an integer again if
    [bTryForInt] asks for it and the number allows it. *)
Definition applyNumericAffinity {R : Rounding} (bTryForInt : bool) (text : pystr)
  : sqlval :=
  match parse text with
  | None => SqlText text
  | Some n =>
      if pure_integer n && (SMALLEST_INT64 <=? signed n) && (signed n <=? LARGEST_INT64)
      then SqlInteger (signed n)
      else
        let r := match exact n with
                 | Some v => Ratio v 1
                 | None => rounded text
                 end in
        if bTryForInt then integer_of_real r else SqlReal r
  end.

Definition real_eqb (r r' : real) : bool :=
  match r, r' with
  | Ratio n d, Ratio n' d' => n * Zpos d' =? n' * Zpos d
  | Infinite b, Infinite b' => Bool.eqb b b'
  | _, _ => false
  end.

(** Whether two values compare equal ([sqlite3MemCompare]): numbers
    by their values, whatever their storage classes; texts by their
    bytes; a number and a text never. *)
Definition equal (a b : sqlval) : bool :=
  match a, b with
  | SqlInteger x, SqlInteger y => x =? y
  | SqlInteger x, SqlReal r => real_eqb (Ratio x 1) r
  | SqlReal r, SqlInteger y => real_eqb r (Ratio y 1)
  | SqlReal r, SqlReal r' => real_eqb r r'
  | SqlText s, SqlText t => eqb s t
  | _, _ => false
  end.

End Sqlite.

(** What a column of INTEGER affinity stores for a bound text. *)
Definition integer_affinity {R : Rounding} (text : pystr) : sqlval :=
  Sqlite.applyNumericAffinity true text.

(** What a bound text is compared as, against such a column. *)
Definition comparison_affinity {R : Rounding} (text : pystr) : sqlval :=
  Sqlite.applyNumericAffinity false text.

(* ================================================================= *)
(** ** The [expenses] table, Add Expense and the Dashboard *)

(** A calendar date, as [st.date_input] returns it.  The table keeps
    its ISO text, [str(date)], which [pd.to_datetime] reads back. *)
Record date := mk_date {
  year : Z;
  month : Z;
  day : Z
}.

(** A monthly period, [dt.to_period("M")]: the year and the month. *)
Definition period : Type := Z * Z.

Definition to_period_M (d : date) : period := (year d, month d).

Definition period_compare (p q : period) : comparison :=
  match Z.compare (fst p) (fst q) with
  | Eq => Z.compare (snd p) (snd q)
  | c => c
  end.


(** Order of [str] values: by code points, a prefix first. *)
Fixpoint pystr_compare (s t : pystr) : comparison :=
  match s, t with
  | [], [] => Eq
  | [], _ :: _ => Lt
  | _ :: _, [] => Gt
  | c :: s', d :: t' =>
      match N.compare c d with
      | Eq => pystr_compare s' t'
      | o => o
      end
  end.

(** s.strip().split()[0] *)
Definition first_token (s : pystr) : result pystr :=
  match split (strip s) with
  | tok :: _ => Return tok
  | [] => Raise IndexError
  end.

Definition categorize_prompt (description : pystr) : pystr :=
  str "Categorize this expense into one word (Food, Transport, Bills, Entertainment, Other): "
  ++ description.

Section Expenses.
(** Amounts are floats, kept abstract: the program stores them and
    adds them up, with the kernels [sums]. *)
Variable amount : Type.
Variable sums : summation amount.
Context {R : Rounding}.

(** expenses(id INTEGER PRIMARY KEY AUTOINCREMENT, user_id INTEGER NOT NULL,
             date TEXT, category TEXT, amount REAL NOT NULL, description TEXT,
             FOREIGN KEY(user_id) REFERENCES users(id)) *)
Record expense_row := mk_expense {
  e_id : Z;
  user_id : sqlval;
  e_date : date;
  category : pystr;
  e_amount : amount;
  description : pystr
}.

Record expenses_table := mk_expenses {
  e_rows : list expense_row;
  e_seq : Z
}.

Definition no_expenses : expenses_table := mk_expenses [] 0.

(** INSERT INTO expenses (user_id, date, category, amount, description)
    VALUES (?, ?, ?, ?, ?).  [None] binds NULL, which NOT NULL refuses;
    foreign keys are not enforced on this connection.  The owner is
    bound as a text, to which the column applies its INTEGER
    affinity. *)
Definition insert_expense (t : expenses_table) (owner : option pystr)
           (d : date) (cat : pystr) (amt : amount) (descr : pystr)
  : result unit * expenses_table :=
  match owner with
  | None => (Raise IntegrityError, t)
  | Some name =>
      match (u <- bind_text name ;; c <- bind_text cat ;;
             x <- bind_text descr ;; Return (u, c, x)) with
      | Raise c => (Raise c, t)
      | Return (u, c, x) =>
          (Return tt,
           mk_expenses
             (e_rows t ++ [mk_expense (e_seq t + 1) (integer_affinity u) d c amt x])
             (e_seq t + 1))
      end
  end.

(** The submitted Add Expense form. *)
Definition add_expense (g : genai) (s : session_state.t) (t : expenses_table)
           (d : date) (amt : amount) (descr : pystr)
  : result notice * expenses_table :=
  match (answer <- get_gemini_response g (categorize_prompt descr) ;;
         first_token answer) with
  | Raise c => (Raise c, t)
  | Return cat =>
      match insert_expense t (session_state.username s) d cat amt descr with
      | (Return _, t') => (Return (ExpenseAdded cat), t')
      | (Raise c, t') => (Raise c, t')
      end
  end.

(** pd.read_sql("SELECT * FROM expenses WHERE user_id=?", conn,
                params=(st.session_state.username,)).  [None] binds
    NULL, which no row compares equal to; a text is compared as the
    number it is written as, if it is. *)
Definition read_expenses (t : expenses_table) (owner : option pystr)
  : result (list expense_row) :=
  match owner with
  | None => Return []
  | Some name =>
      u <- bind_text name ;;
      Return (filter (fun r => Sqlite.equal (user_id r) (comparison_affinity u))
                     (e_rows t))
  end.

(** What the Dashboard page shows for the frame [df]: the warning, or
    the frame with the totals by category, the totals by month and
    the grand total.  (The savings suggestion that follows, once an
    income is entered, is one more call of the gateway.) *)
Inductive dashboard :=
| NoExpensesYet                      (* st.warning "No expenses added yet." *)
| Charts (dataframe : list expense_row)
         (category_summary : list (pystr * amount))
         (monthly : list (period * amount))
         (total_expense : amount).

(** df.groupby("category")["amount"].sum().reset_index() *)
Definition category_totals (df : list expense_row) : list (pystr * amount) :=
  groupby_sum pystr_compare sums category e_amount df.

(** df.groupby(df['date'].dt.to_period("M"))['amount'].sum().reset_index() *)
Definition monthly_totals (df : list expense_row) : list (period * amount) :=
  groupby_sum period_compare sums (fun r => to_period_M (e_date r)) e_amount df.

Definition render_dashboard (df : list expense_row) : dashboard :=
  match df with
  | [] => NoExpensesYet
  | _ :: _ =>
      Charts df (category_totals df) (monthly_totals df)
             (series_sum sums (map e_amount df))
  end.

Definition dashboard_page (s : session_state.t) (t : expenses_table)
  : result dashboard :=
  df <- read_expenses t (session_state.username s) ;; Return (render_dashboard df).

End Expenses.

Arguments mk_expense {amount}.
Arguments e_id {amount}.
Arguments user_id {amount}.
Arguments e_date {amount}.
Arguments category {amount}.
Arguments e_amount {amount}.
Arguments description {amount}.
Arguments mk_expenses {amount}.
Arguments e_rows {amount}.
Arguments e_seq {amount}.
Arguments no_expenses {amount}.
Arguments insert_expense {amount} {R}.
Arguments add_expense {amount} {R}.
Arguments read_expenses {amount} {R}.
Arguments NoExpensesYet {amount}.
Arguments Charts {amount}.
Arguments category_totals {amount}.
Arguments monthly_totals {amount}.
Arguments render_dashboard {amount}.
Arguments dashboard_page {amount} sums {R}.

(** The policy as the specification words it: at least 8 characters,
    all of them letters, digits or the listed specials, with a
    lower-case letter, an upper-case letter, a digit and a special
    among them. *)
Module Policy.

Definition lowercase (c : N) : bool := (ch "a" <=? c)%N && (c <=? ch "z")%N.
Definition uppercase (c : N) : bool := (ch "A" <=? c)%N && (c <=? ch "Z")%N.
Definition digit (c : N) : bool := isdecimal c.
Definition special (c : N) : bool :=
  existsb (N.eqb c) [ch "@"; ch "$"; ch "!"; ch "%"; ch "*"; ch "?"; ch "&"].
Definition allowed (c : N) : bool :=
  uppercase c || lowercase c || digit c || special c.

Definition meets (password : pystr) : bool :=
  (8 <=? List.length password)%nat
  && forallb allowed password
  && existsb lowercase password
  && existsb uppercase password
  && existsb digit password
  && existsb special password.

End Policy.

(** Notions used to state the facts about encoding and hashing. *)

(** A range of code points that has no surrogate and stays within
    Unicode. *)
Definition outside_surrogates (r : N * N) : bool :=
  (snd r <? 0xD800)%N || ((0xDFFF <? fst r)%N && (snd r <? 0x110000)%N).

(** A hash state: eight words of 32 bits. *)
Definition state_ok (st : list N) : Prop :=
  List.length st = 8%nat /\ Forall (fun w => w < Sha256.w32)%N st.

(** The number of digests. *)
Definition digests : N := Sha256.w32 ^ 8.

(** A policy-meeting password of every length from 8 on. *)
Definition long_password (n : nat) : pystr := str "Aa1!aaaa" ++ repeat (ch "a") n.

(** The digest of a password as a number, 0 standing for a password
    that does not encode. *)
Definition digest_of (password : pystr) : N :=
  match Utf8.encode password with
  | Return bytes => Sha256.digest bytes
  | Raise _ => 0
  end.

(* ================================================================= *)
(** ** The chatbot page *)

(** The Get Answer button, [st.button("Get Answer") and
    user_input.strip()]: the question is sent as typed, and only if
    something is left of it once stripped. *)
Definition chatbot_button (g : genai) (user_input : pystr)
  : option (result pystr) :=
  if empty (strip user_input) then None
  else Some (get_gemini_response g user_input).

(* ================================================================= *)
(** ** Notions used to state the facts about the stored users *)

(** A code point that has a UTF-8 form. *)
Definition encodable (c : N) : bool :=
  (c <? 0xD800)%N || ((0xDFFF <? c)%N && (c <? 0x110000)%N).

(** A lower-case hexadecimal digit, and a string of 64 of them. *)
Definition hex_char (c : N) : bool :=
  ((ch "0" <=? c)%N && (c <=? ch "9")%N) || ((ch "a" <=? c)%N && (c <=? ch "f")%N).

Definition is_digest (s : pystr) : bool :=
  (List.length s =? 64)%nat && forallb hex_char s.

(** What UNIQUE, AUTOINCREMENT and the hashing promise of a [users]
    table: a counter that is not negative, no username, email or id
    twice, ids between 1 and the counter, and digests in the password
    column. *)
Definition users_ok (t : users_table) : Prop :=
  (0 <= u_seq t)%Z
  /\ NoDup (map u_username (u_rows t))
  /\ NoDup (map u_email (u_rows t))
  /\ NoDup (map id (u_rows t))
  /\ Forall (fun r => (1 <= id r <= u_seq t)%Z) (u_rows t)
  /\ Forall (fun r => is_digest (u_password r) = true) (u_rows t).

(** The tables that the two writing functions can produce from the
    empty one. *)
Inductive reachable : users_table -> Prop :=
| reach_empty : reachable no_users
| reach_register t username email password :
    reachable t -> reachable (snd (register_user t username email password))
| reach_reset t email new_password :
    reachable t -> reachable (snd (reset_password t email new_password)).

(** Whether a stored owner is the [id] of a row of [users]. *)
Definition references_user (v : sqlval) (t : users_table) : bool :=
  match v with
  | SqlInteger z => existsb (fun r => (id r =? z)%Z) (u_rows t)
  | SqlReal x => existsb (fun r => Sqlite.real_eqb (Ratio (id r) 1) x) (u_rows t)
  | SqlText _ => false
  end.

(** Some fixed inputs: the scenario of the specification. *)
Module Scenario.

Definition alice : pystr := str "alice".
Definition alice_email : pystr := str "alice@x.com".
Definition alice_password : pystr := str "Passw0rd!".
Definition alice_digest : pystr :=
  str "e66860546f18cdbbcd86b35e18b525bffc67f772c650cedfe3ff7a0026fa1dee".

Definition alice_row : user_row := mk_user 1 alice alice_email alice_digest.

Definition users_with_alice : users_table := mk_users [alice_row] 1.

Definition alice_session : session_state.t :=
  session_state.mk true (Some alice) (Some alice_email) home.

(** A service that answers every prompt with [answer]. *)
Definition answering (answer : pystr) : genai :=
  mk_genai (fun _ => Ok tt) (fun _ => Ok (mk_response (Ok answer) answer)).

(** A service whose call raises an exception of class [c]. *)
Definition failing (c : exc_class) (msg : pystr) : genai :=
  mk_genai (fun _ => Ok tt) (fun _ => Fail c msg).

Definition jan5 : date := mk_date 2024 1 5.

(** A floating point for the statements that need one fixed: the
    names of the scenario are not written as numbers, and it is not
    consulted for them. *)
Definition rounding : Rounding := fun _ => Ratio 0 1.

(** Three expenses of alice, over two months and two categories. *)
Definition three_expenses : list (expense_row Z) :=
  [mk_expense 1%Z (SqlText alice) (mk_date 2024 2 3) (str "Food") 100%Z (str "Lunch");
   mk_expense 2%Z (SqlText alice) jan5 (str "Transport") 250%Z (str "Uber ride");
   mk_expense 3%Z (SqlText alice) (mk_date 2024 2 20) (str "Food") 50%Z (str "Dinner")].

End Scenario.

(* ================================================================= *)
(** * Theorems *)

(* ----------------------------------------------------------------- *)
(** ** The definitions on known inputs *)

Example validate_password_examples :
  validate_password (str "Passw0rd!") = true
  /\ validate_password (str "Pw0rd!") = false
  /\ validate_password (str "password1!") = false
  /\ validate_password (str "Passw0rd") = false
  /\ validate_password (str "Passw0rd! ") = false
  /\ validate_password (str "Passw" ++ [1633%N] ++ str "rd!") = true.
Proof. repeat split. Qed.

Example first_token_examples :
  split (strip (str "  Food  and more ")) = [str "Food"; str "and"; str "more"]
  /\ first_token (str " Transport ") = Return (str "Transport")
  /\ first_token (str "Error: quota exceeded") = Return (str "Error:").
Proof. repeat split. Qed.

(** Digests computed by [hashlib] for the same inputs: the empty
    string, one block, two blocks, and a password with a digit
    outside ASCII. *)
Example hash_password_examples :
  hash_password []
  = Return (str "e3b0c44298fc1c149afbf4c8996fb92427ae41e4649b934ca495991b7852b855")
  /\ hash_password (str "abc")
     = Return (str "ba7816bf8f01cfea414140de5dae2223b00361a396177a9cb410ff61f20015ad")
  /\ hash_password (str "Passw0rd!")
     = Return (str "e66860546f18cdbbcd86b35e18b525bffc67f772c650cedfe3ff7a0026fa1dee")
  /\ hash_password (repeat (ch "a") 70)
     = Return (str "6bd5e5034855a11241f0dee8fc72850ffd9955b28347a86428b5fa19119f6ad0")
  /\ hash_password (str "Aa1!aaa" ++ [1633%N])
     = Return (str "da8cf245de595b2e2bbae95638446c4fe3e93e78b8f03d8d0d634b9cf817170e")
  /\ hash_password [0xD800%N] = Raise UnicodeEncodeError.
Proof. repeat (apply conj; [vm_compute; reflexivity|]). vm_compute. reflexivity. Qed.

(* ----------------------------------------------------------------- *)
(** ** Strings *)

Lemma eqb_eq (s t : pystr) : eqb s t = true <-> s = t.
Proof.
  unfold eqb. destruct (list_eq_dec N.eq_dec s t); split; congruence.
Qed.

Lemma eqb_refl (s : pystr) : eqb s s = true.
Proof. now apply eqb_eq. Qed.

Lemma eqb_neq (s t : pystr) : eqb s t = false <-> s <> t.
Proof.
  unfold eqb. destruct (list_eq_dec N.eq_dec s t); split; congruence.
Qed.

Lemma eqb_sym (s t : pystr) : eqb s t = eqb t s.
Proof.
  destruct (eqb t s) eqn:E.
  - apply eqb_eq in E. subst. apply eqb_refl.
  - apply eqb_neq in E. apply eqb_neq. congruence.
Qed.

Lemma lstrip_blank (s : pystr) :
  forallb isspace (lstrip s) = forallb isspace s.
Proof.
  induction s as [|c s IH]; simpl; [reflexivity|].
  destruct (isspace c) eqn:E; simpl; [assumption | now rewrite E].
Qed.

Lemma forallb_rev {A} (f : A -> bool) (l : list A) :
  forallb f (rev l) = forallb f l.
Proof.
  induction l as [|a l IH]; simpl; [reflexivity|].
  rewrite forallb_app, IH. simpl. rewrite andb_true_r. apply andb_comm.
Qed.

Lemma strip_blank (s : pystr) :
  forallb isspace (strip s) = forallb isspace s.
Proof.
  unfold strip, rstrip.
  now rewrite forallb_rev, lstrip_blank, forallb_rev, lstrip_blank.
Qed.

Lemma split_from_nil (s cur : pystr) :
  split_from cur s = [] <-> cur = [] /\ forallb isspace s = true.
Proof.
  revert cur. induction s as [|c s IH]; intros cur; simpl.
  - destruct cur; split; intros H; easy.
  - destruct (isspace c) eqn:E; simpl.
    + destruct cur.
      * rewrite IH. tauto.
      * split; intros H; [discriminate | now destruct H].
    + rewrite IH. split; intros [H1 H2]; discriminate.
Qed.

(** [split()[0]] raises exactly on the strings made of whitespace
    only, the empty one among them. *)
Lemma first_token_raises_iff (s : pystr) :
  first_token s = Raise IndexError <-> forallb isspace s = true.
Proof.
  unfold first_token, split.
  destruct (split_from [] (strip s)) as [|tok rest] eqn:E.
  - apply split_from_nil in E. destruct E as [_ E].
    rewrite strip_blank in E. tauto.
  - split; [discriminate|]. intros H.
    assert (split_from [] (strip s) = []) as E'.
    { apply split_from_nil. now rewrite strip_blank. }
    congruence.
Qed.

(* ----------------------------------------------------------------- *)
(** ** Session *)

Lemma logout_button_email (s : session_state.t) :
  session_state.email (logout_button s) = session_state.email s.
Proof. reflexivity. Qed.

(** C9.  The claim: from LoggedIn, logout clears the whole identity,
    username and email.  The handler resets [logged_in] and
    [username] only: after alice logs out, the session still holds
    her email. *)
Theorem logout_leaves_email :
  session_state.logged_in (logout_button Scenario.alice_session) = false
  /\ session_state.username (logout_button Scenario.alice_session) = None
  /\ session_state.email (logout_button Scenario.alice_session)
     = Some Scenario.alice_email.
Proof. repeat split. Qed.

(* ----------------------------------------------------------------- *)
(** ** Add Expense *)

Section AddExpense.
Context {R : Rounding}.

(** C10.  The claim: taking the first token of the gateway's answer
    never raises, blank answers included.  On an empty answer
    [split()] gives the empty list and [[0]] raises [IndexError]; the
    exception leaves the form handler and nothing is stored. *)
Theorem add_expense_blank_answer_raises :
  first_token (str "") = Raise IndexError
  /\ first_token (str "   ") = Raise IndexError
  /\ add_expense (Scenario.answering (str "")) Scenario.alice_session
                 (@no_expenses Z) Scenario.jan5 250%Z (str "Uber ride")
     = (Raise IndexError, no_expenses).
Proof. repeat split. Qed.

Lemma insert_expense_owner {amount} (t t' : expenses_table amount)
      (owner : option pystr) d cat (amt : amount) descr :
  insert_expense t owner d cat amt descr = (Return tt, t') ->
  exists r, e_rows t' = e_rows t ++ [r]
            /\ Some (user_id r) = option_map integer_affinity owner.
Proof.
  unfold insert_expense. destruct owner as [name|]; [|discriminate].
  destruct (bind_text name) as [u|] eqn:Eu; simpl; [|discriminate].
  destruct (bind_text cat) as [c|]; simpl; [|discriminate].
  destruct (bind_text descr) as [x|]; simpl; [|discriminate].
  intros H. inversion H; subst; clear H. eexists. split; [reflexivity|].
  simpl. unfold bind_text, bind in Eu.
  destruct (Utf8.encode name); inversion Eu; now subst.
Qed.

(** The owner written by the form is what the column makes of the
    text of the session's username, whatever the [users] table
    holds. *)
Lemma add_expense_owner {amount} g s (t t' : expenses_table amount)
      d (amt : amount) descr n :
  add_expense g s t d amt descr = (Return n, t') ->
  exists r, e_rows t' = e_rows t ++ [r]
            /\ Some (user_id r)
               = option_map integer_affinity (session_state.username s).
Proof.
  unfold add_expense.
  destruct (bind _ _) as [cat|]; [|discriminate].
  destruct (insert_expense _ _ _ _ _ _) as [[[]|] t''] eqn:E; [|discriminate].
  intros H. inversion H; subst. eapply insert_expense_owner. eassumption.
Qed.

(** C8.  The claim: the owner field of a created expense holds the
    [id] of an existing user.  The INSERT binds the session's
    username: alice has id 1, her expense is stored with owner
    ['alice'], which is the id of no user. *)
Theorem add_expense_stores_username :
  add_expense (Scenario.answering (str "Transport")) Scenario.alice_session
              (@no_expenses Z) Scenario.jan5 250%Z (str "Uber ride")
  = (Return (ExpenseAdded (str "Transport")),
     mk_expenses [mk_expense 1%Z (SqlText Scenario.alice) Scenario.jan5
                             (str "Transport") 250%Z (str "Uber ride")] 1%Z)
  /\ references_user (SqlText Scenario.alice) Scenario.users_with_alice = false
  /\ references_user (SqlInteger 1) Scenario.users_with_alice = true.
Proof. repeat split. Qed.

End AddExpense.

(* ----------------------------------------------------------------- *)
(** ** The password pattern *)

Lemma max_repeat_spec (a : atom) (k : cont) (s : pystr) :
  forall m pos,
    max_repeat a k m pos s = true <->
    exists pre rest,
      s = pre ++ rest /\ (m <= List.length pre)%nat
      /\ forallb (atom_matches a) pre = true
      /\ k (pos + List.length pre)%nat rest = true.
Proof.
  induction s as [|c s IH]; intros m pos.
  - destruct m; simpl.
    + split.
      * intros H. exists [], []. simpl. rewrite Nat.add_0_r. auto.
      * intros (pre & rest & E & _ & _ & H).
        symmetry in E. apply app_eq_nil in E. destruct E; subst.
        simpl in H. now rewrite Nat.add_0_r in H.
    + split; [discriminate|].
      intros (pre & rest & E & L & _).
      symmetry in E. apply app_eq_nil in E. destruct E; subst. simpl in L. lia.
  - destruct m; simpl.
    + rewrite orb_true_iff, andb_true_iff, IH. split.
      * intros [[A (pre & rest & E & _ & F & H)] | H].
        -- exists (c :: pre), rest. subst. simpl. rewrite A, F.
           rewrite Nat.add_succ_r. repeat split; auto. lia.
        -- exists [], (c :: s). simpl. rewrite Nat.add_0_r. auto.
      * intros (pre & rest & E & _ & F & H). destruct pre as [|c' pre].
        -- simpl in *. subst. rewrite Nat.add_0_r in H. now right.
        -- simpl in *. inversion E; subst. apply andb_true_iff in F.
           destruct F as [A F]. left. split; [assumption|].
           exists pre, rest. rewrite Nat.add_succ_r in H.
           repeat split; auto. lia.
    + rewrite andb_true_iff, IH. split.
      * intros [A (pre & rest & E & L & F & H)].
        exists (c :: pre), rest. subst. simpl. rewrite A, F.
        rewrite Nat.add_succ_r. repeat split; auto. lia.
      * intros (pre & rest & E & L & F & H). destruct pre as [|c' pre].
        -- simpl in L. lia.
        -- simpl in *. inversion E; subst. apply andb_true_iff in F.
           destruct F as [A F]. split; [assumption|].
           exists pre, rest. rewrite Nat.add_succ_r in H.
           repeat split; auto. lia.
Qed.

(** A lookahead [(?=.*X)] holds where a character of [X] follows a
    run without newline. *)
Lemma lookahead_spec (x : atom) (k : cont) (pos : nat) (s : pystr) :
  node_matches (ASSERT [MAX_REPEAT 0 ANY; ATOM x]) k pos s = true <->
  (exists pre c rest,
      s = pre ++ c :: rest
      /\ forallb (fun d => negb (d =? newline)%N) pre = true
      /\ atom_matches x c = true)
  /\ k pos s = true.
Proof.
  simpl. rewrite andb_true_iff, max_repeat_spec.
  apply and_iff_compat_r. split.
  - intros (pre & rest & E & _ & F & H). destruct rest as [|c rest]; [discriminate|].
    unfold accept in H. rewrite andb_true_r in H. now exists pre, c, rest.
  - intros (pre & c & rest & E & F & H). exists pre, (c :: rest).
    unfold accept. rewrite H. repeat split; auto. lia.
Qed.

Lemma at_end_spec (rest : pystr) :
  at_end rest = true <-> rest = [] \/ rest = [newline].
Proof.
  destruct rest as [|c [|d rest]]; simpl.
  - tauto.
  - rewrite N.eqb_eq. split; [intros ->; now right | intros [H|H]; congruence].
  - split; [discriminate | intros [H|H]; discriminate].
Qed.

Lemma lower_set_matches c : atom_matches lower_set c = Policy.lowercase c.
Proof. simpl. apply orb_false_r. Qed.

Lemma upper_set_matches c : atom_matches upper_set c = Policy.uppercase c.
Proof. simpl. apply orb_false_r. Qed.

Lemma digit_set_matches c : atom_matches digit_set c = Policy.digit c.
Proof. simpl. apply orb_false_r. Qed.

Lemma special_set_matches c : atom_matches special_set c = Policy.special c.
Proof. reflexivity. Qed.

Lemma allowed_set_matches c : atom_matches allowed_set c = Policy.allowed c.
Proof.
  unfold Policy.allowed. rewrite <- special_set_matches.
  simpl. now rewrite !orb_assoc.
Qed.

Lemma allowed_not_newline c :
  Policy.allowed c = true -> (c =? newline)%N = false.
Proof.
  intros H. destruct (N.eqb_spec c newline) as [->|]; [|reflexivity].
  vm_compute in H. discriminate.
Qed.

(** Inside a subject made of allowed characters and an optional final
    newline, a lookahead for a set of allowed characters finds its
    character among the allowed ones. *)
Lemma lookahead_in_body (x : N -> bool) (w rest : pystr) :
  (forall c, x c = true -> Policy.allowed c = true) ->
  forallb Policy.allowed w = true ->
  rest = [] \/ rest = [newline] ->
  (exists pre c post,
      w ++ rest = pre ++ c :: post
      /\ forallb (fun d => negb (d =? newline)%N) pre = true
      /\ x c = true)
  <-> existsb x w = true.
Proof.
  intros Hx Hw Hrest. rewrite existsb_exists. split.
  - intros (pre & c & post & E & _ & Hc). exists c. split; [|assumption].
    assert (In c (w ++ rest)) as Hin by (rewrite E; apply in_elt).
    apply in_app_or in Hin. destruct Hin as [Hin|Hin]; [assumption|].
    exfalso. destruct Hrest as [->| ->]; simpl in Hin; [easy|].
    destruct Hin as [<-|[]]. apply Hx in Hc. vm_compute in Hc. discriminate.
  - intros (c & Hin & Hc). apply in_split in Hin. destruct Hin as (l1 & l2 & ->).
    exists l1, c, (l2 ++ rest). rewrite <- app_assoc. simpl.
    repeat split; [|assumption].
    rewrite forallb_app in Hw. apply andb_true_iff in Hw. destruct Hw as [Hw _].
    rewrite forallb_forall in *. intros d Hd.
    now rewrite allowed_not_newline by auto.
Qed.

Lemma lowercase_allowed c : Policy.lowercase c = true -> Policy.allowed c = true.
Proof. unfold Policy.allowed. intros ->. now rewrite orb_true_r. Qed.

Lemma uppercase_allowed c : Policy.uppercase c = true -> Policy.allowed c = true.
Proof. unfold Policy.allowed. now intros ->. Qed.

Lemma digit_allowed c : Policy.digit c = true -> Policy.allowed c = true.
Proof. unfold Policy.allowed. intros ->. now rewrite orb_true_r. Qed.

Lemma special_allowed c : Policy.special c = true -> Policy.allowed c = true.
Proof. unfold Policy.allowed. intros ->. now rewrite orb_true_r. Qed.

Lemma forallb_ext_eq {A} (f g : A -> bool) (l : list A) :
  (forall a, f a = g a) -> forallb f l = forallb g l.
Proof. intros H. induction l; simpl; congruence. Qed.

(** What the pattern accepts: the passwords that meet the policy, and
    those followed by one newline. *)
Theorem validate_password_spec (password : pystr) :
  validate_password password = true <->
  exists w rest,
    password = w ++ rest /\ (rest = [] \/ rest = [newline])
    /\ Policy.meets w = true.
Proof.
  unfold validate_password, re_match, password_pattern, matches.
  cbn [fold_right].
  change (node_matches AT_BEGINNING ?k 0 password) with (true && k 0%nat password).
  rewrite andb_true_l, !lookahead_spec.
  change (node_matches (MAX_REPEAT 8 allowed_set) ?k 0 password)
    with (max_repeat allowed_set k 8 0 password).
  rewrite max_repeat_spec.
  split.
  - intros (Hl & Hu & Hd & Hs & w & rest & E & L & F & H).
    simpl in H. unfold accept in H. rewrite andb_true_r in H.
    apply at_end_spec in H.
    rewrite (forallb_ext_eq _ _ _ allowed_set_matches) in F.
    exists w, rest. repeat split; try assumption.
    subst password. unfold Policy.meets.
    apply Nat.leb_le in L. rewrite L, F. simpl.
    setoid_rewrite lower_set_matches in Hl.
    setoid_rewrite upper_set_matches in Hu.
    setoid_rewrite digit_set_matches in Hd.
    setoid_rewrite special_set_matches in Hs.
    apply (lookahead_in_body _ _ _ lowercase_allowed F H) in Hl.
    apply (lookahead_in_body _ _ _ uppercase_allowed F H) in Hu.
    apply (lookahead_in_body _ _ _ digit_allowed F H) in Hd.
    apply (lookahead_in_body _ _ _ special_allowed F H) in Hs.
    now rewrite Hl, Hu, Hd, Hs.
  - intros (w & rest & E & H & M). unfold Policy.meets in M.
    repeat (apply andb_true_iff in M; destruct M as [M ?]).
    apply Nat.leb_le in M. subst password.
    setoid_rewrite lower_set_matches.
    setoid_rewrite upper_set_matches.
    setoid_rewrite digit_set_matches.
    setoid_rewrite special_set_matches.
    repeat split;
      try (apply lookahead_in_body;
           auto using lowercase_allowed, uppercase_allowed, digit_allowed,
                      special_allowed).
    exists w, rest. rewrite (forallb_ext_eq _ _ _ allowed_set_matches).
    repeat split; auto.
    simpl. unfold accept. rewrite andb_true_r. now apply at_end_spec.
Qed.

Lemma meets_validates (password : pystr) :
  Policy.meets password = true -> validate_password password = true.
Proof.
  intros M. apply validate_password_spec. exists password, [].
  rewrite app_nil_r. auto.
Qed.

Lemma meets_inv (password : pystr) :
  Policy.meets password = true <->
  (8 <= List.length password)%nat
  /\ forallb Policy.allowed password = true
  /\ existsb Policy.lowercase password = true
  /\ existsb Policy.uppercase password = true
  /\ existsb Policy.digit password = true
  /\ existsb Policy.special password = true.
Proof.
  unfold Policy.meets. rewrite !andb_true_iff, Nat.leb_le. tauto.
Qed.

Lemma meets_no_newline (password : pystr) :
  Policy.meets password = true -> ~ In newline password.
Proof.
  intros M Hin. apply meets_inv in M. destruct M as (_ & M & _).
  rewrite forallb_forall in M. apply M in Hin. vm_compute in Hin. discriminate.
Qed.

(** C1.  The claim: a password is accepted if and only if it meets
    the policy, every character being a letter, a digit or a listed
    special.  The pattern ends in [$], which also matches before a
    final newline: the nine policy characters of ['Passw0rd!']
    followed by a newline are accepted, although the newline is
    outside the alphabet and the policy is not met. *)
Theorem validate_password_accepts_final_newline :
  validate_password (str "Passw0rd!" ++ [newline]) = true
  /\ Policy.allowed newline = false
  /\ Policy.meets (str "Passw0rd!" ++ [newline]) = false.
Proof. repeat split. Qed.

(* ----------------------------------------------------------------- *)
(** ** Encoding and hashing *)

Lemma encode_char_some (c : N) :
  (c < 0xD800 \/ (0xDFFF < c /\ c < 0x110000))%N ->
  exists bs, Utf8.encode_char c = Some bs.
Proof.
  intros H. unfold Utf8.encode_char.
  destruct (N.ltb_spec c 0x80); [eauto|].
  destruct (N.ltb_spec c 0x800); [eauto|].
  destruct (N.ltb_spec c 0x10000).
  - destruct (N.leb_spec 0xD800 c); simpl; [|eauto].
    destruct (N.leb_spec c 0xDFFF); simpl; [lia | eauto].
  - destruct (N.ltb_spec c 0x110000); [eauto | lia].
Qed.

Lemma in_ranges_bounds (table : list (N * N)) (c : N) :
  in_ranges table c = true ->
  exists lo hi, In (lo, hi) table /\ (lo <= c <= hi)%N.
Proof.
  unfold in_ranges. rewrite existsb_exists. intros ([lo hi] & Hin & H).
  simpl in H. apply andb_true_iff in H. destruct H as [H1 H2].
  apply N.leb_le in H1, H2. eauto.
Qed.

Lemma decimal_encodable (c : N) :
  isdecimal c = true -> (c < 0xD800 \/ (0xDFFF < c /\ c < 0x110000))%N.
Proof.
  intros H. apply in_ranges_bounds in H. destruct H as (lo & hi & Hin & Hc).
  assert (forallb outside_surrogates decimal_ranges = true) as T by reflexivity.
  rewrite forallb_forall in T. apply T in Hin. unfold outside_surrogates in Hin.
  simpl in Hin. apply orb_true_iff in Hin. destruct Hin as [Hin|Hin].
  - apply N.ltb_lt in Hin. lia.
  - apply andb_true_iff in Hin. destruct Hin as [H1 H2].
    apply N.ltb_lt in H1, H2. lia.
Qed.

Lemma allowed_encodable (c : N) :
  Policy.allowed c = true -> exists bs, Utf8.encode_char c = Some bs.
Proof.
  intros H. apply encode_char_some. unfold Policy.allowed in H.
  rewrite !orb_true_iff in H. destruct H as [[[H|H]|H]|H].
  - unfold Policy.uppercase in H. apply andb_true_iff in H. destruct H as [_ H].
    apply N.leb_le in H. change (ch "Z") with 90%N in H. lia.
  - unfold Policy.lowercase in H. apply andb_true_iff in H. destruct H as [_ H].
    apply N.leb_le in H. change (ch "z") with 122%N in H. lia.
  - now apply decimal_encodable.
  - unfold Policy.special in H. apply existsb_exists in H.
    destruct H as (d & Hin & H). apply N.eqb_eq in H. subst d.
    simpl in Hin. vm_compute in Hin. left.
    repeat (destruct Hin as [<-|Hin]; [reflexivity|]). destruct Hin.
Qed.

Lemma encode_app (s t : pystr) bs bt :
  Utf8.encode s = Return bs -> Utf8.encode t = Return bt ->
  Utf8.encode (s ++ t) = Return (bs ++ bt).
Proof.
  revert bs. induction s as [|c s IH]; intros bs Hs Ht; simpl in *.
  - inversion Hs. assumption.
  - destruct (Utf8.encode_char c) as [bc|]; [|discriminate].
    destruct (Utf8.encode s) as [bs'|]; [|discriminate]. simpl in Hs.
    inversion Hs; subst. rewrite (IH bs' eq_refl Ht). simpl.
    now rewrite app_assoc.
Qed.

Lemma encode_forall (s : pystr) :
  (forall c, In c s -> exists bs, Utf8.encode_char c = Some bs) ->
  exists bytes, Utf8.encode s = Return bytes.
Proof.
  induction s as [|c s IH]; intros H; simpl; [eauto|].
  destruct (H c (or_introl eq_refl)) as [bc ->].
  destruct IH as [bs ->]; [intros; apply H; now right|]. simpl. eauto.
Qed.

(** An accepted password encodes: [hash_password] returns a digest
    for it. *)
Lemma validate_password_hashes (password : pystr) :
  validate_password password = true ->
  exists h, hash_password password = Return h.
Proof.
  intros V. apply validate_password_spec in V.
  destruct V as (w & rest & -> & Hrest & M).
  assert (exists bytes, Utf8.encode (w ++ rest) = Return bytes) as [bytes E].
  { apply encode_forall. intros c Hin. apply in_app_or in Hin.
    destruct Hin as [Hin|Hin].
    - apply allowed_encodable. apply meets_inv in M. destruct M as (_ & M & _).
      rewrite forallb_forall in M. auto.
    - destruct Hrest as [->| ->]; simpl in Hin; [easy|].
      destruct Hin as [<-|[]]. now exists [newline]. }
  unfold hash_password. rewrite E. simpl. eauto.
Qed.

Lemma encode_ascii (s : pystr) :
  Forall (fun c => c < 0x80)%N s -> Utf8.encode s = Return s.
Proof.
  induction 1 as [|c s Hc _ IH]; simpl; [reflexivity|].
  unfold Utf8.encode_char. apply N.ltb_lt in Hc. rewrite Hc, IH. reflexivity.
Qed.

Lemma hex_ascii (n : nat) (x : N) : Forall (fun c => c < 0x80)%N (Sha256.hex n x).
Proof.
  revert x. induction n as [|n IH]; intros x; simpl; [constructor|].
  apply Forall_app. split; [apply IH|]. constructor; [|constructor].
  unfold Sha256.hex_digit.
  assert (x mod 16 < 16)%N by (apply N.mod_lt; lia).
  destruct (N.ltb_spec (x mod 16) 10); lia.
Qed.

Lemma bind_text_hexdigest (bytes : list N) :
  bind_text (Sha256.hexdigest bytes) = Return (Sha256.hexdigest bytes).
Proof.
  unfold bind_text. rewrite encode_ascii; [reflexivity | apply hex_ascii].
Qed.

Lemma bind_text_inv (s u : pystr) : bind_text s = Return u -> u = s.
Proof.
  unfold bind_text. destruct (Utf8.encode s); simpl; congruence.
Qed.

Lemma hash_password_inv (password h : pystr) :
  hash_password password = Return h ->
  exists bytes, Utf8.encode password = Return bytes /\ h = Sha256.hexdigest bytes.
Proof.
  unfold hash_password. destruct (Utf8.encode password) as [bytes|]; simpl;
    [|discriminate].
  intros H. inversion H. eauto.
Qed.

Lemma bind_text_digest (password h : pystr) :
  hash_password password = Return h -> bind_text h = Return h.
Proof.
  intros H. apply hash_password_inv in H. destruct H as (bytes & _ & ->).
  apply bind_text_hexdigest.
Qed.

(** *** The digest is one of finitely many values *)

Lemma add32_lt (a b : N) : (Sha256.add32 a b < Sha256.w32)%N.
Proof. unfold Sha256.add32. apply N.mod_lt. discriminate. Qed.

Lemma compress_ok (st block : list N) :
  state_ok st -> state_ok (Sha256.compress st block).
Proof.
  intros Hst. pose proof Hst as [L _].
  destruct st as [|h0 [|h1 [|h2 [|h3 [|h4 [|h5 [|h6 [|h7 [|]]]]]]]]];
    try discriminate.
  unfold Sha256.compress.
  destruct (fold_left Sha256.round _ _)
    as [|a [|b [|c [|d [|e [|f [|g [|h [|]]]]]]]]]; try assumption.
  split; [reflexivity|]. repeat constructor; apply add32_lt.
Qed.

Lemma final_state_ok (msg : list N) : state_ok (Sha256.final_state msg).
Proof.
  unfold Sha256.final_state.
  assert (state_ok Sha256.H0) as H0ok.
  { split; [reflexivity|]. repeat constructor. }
  revert H0ok. generalize Sha256.H0.
  generalize (Sha256.chunks 64 (List.length (Sha256.pad msg)) (Sha256.pad msg)).
  induction l as [|block blocks IH]; intros st Hst; simpl; [assumption|].
  apply IH. now apply compress_ok.
Qed.

Lemma fold_words_bound (B : N) (l : list N) :
  (0 < B)%N ->
  Forall (fun w => w < B)%N l ->
  forall acc k,
    (acc < B ^ k)%N ->
    (fold_left (fun acc w => acc * B + w) l acc < B ^ (k + N.of_nat (List.length l)))%N.
Proof.
  intros HB. induction 1 as [|w l Hw _ IH]; intros acc k Hacc; simpl fold_left.
  - simpl. now rewrite N.add_0_r.
  - replace (k + N.of_nat (List.length (w :: l)))%N
      with (N.succ k + N.of_nat (List.length l))%N
      by (simpl List.length; lia).
    apply IH. rewrite N.pow_succ_r'. nia.
Qed.

Lemma digest_bound (msg : list N) : (Sha256.digest msg < digests)%N.
Proof.
  unfold Sha256.digest, digests. destruct (final_state_ok msg) as [L F].
  replace 8%N with (0 + N.of_nat (List.length (Sha256.final_state msg)))%N
    by (rewrite L; reflexivity).
  apply fold_words_bound; [reflexivity | assumption | reflexivity].
Qed.

(** *** More passwords than digests *)

(** No function from the natural numbers into [B] values is
    injective. *)
Lemma pigeonhole (B : nat) (f : nat -> N) :
  (forall i, (f i < N.of_nat B)%N) ->
  ~ (forall i j, f i = f j -> i = j).
Proof.
  intros Hb Hinj.
  assert (NoDup (map f (seq 0 (S B)))) as ND.
  { apply Injective_map_NoDup; [exact Hinj | apply seq_NoDup]. }
  assert (incl (map f (seq 0 (S B))) (map N.of_nat (seq 0 B))) as I.
  { intros x Hx. apply in_map_iff in Hx. destruct Hx as (i & <- & _).
    apply in_map_iff. exists (N.to_nat (f i)). split; [apply N2Nat.id|].
    apply in_seq. specialize (Hb i). lia. }
  pose proof (NoDup_incl_length ND I) as L.
  rewrite !length_map, !length_seq in L. lia.
Qed.

Lemma long_password_meets (n : nat) : Policy.meets (long_password n) = true.
Proof.
  apply meets_inv. unfold long_password.
  rewrite length_app, forallb_app, !existsb_app.
  repeat split; try reflexivity.
  - simpl. lia.
  - simpl. induction n; simpl; auto.
Qed.

Lemma long_password_inj (i j : nat) :
  long_password i = long_password j -> i = j.
Proof.
  unfold long_password. intros H. apply app_inv_head in H.
  apply (f_equal (@List.length N)) in H. now rewrite !repeat_length in H.
Qed.

Lemma digest_of_bound (password : pystr) : (digest_of password < digests)%N.
Proof.
  unfold digest_of. destruct (Utf8.encode password); [apply digest_bound | reflexivity].
Qed.

Lemma hash_password_digest_of (password h : pystr) :
  hash_password password = Return h -> h = Sha256.hex 64 (digest_of password).
Proof.
  unfold hash_password, digest_of.
  destruct (Utf8.encode password); simpl; [|discriminate].
  intros H. now inversion H.
Qed.

(** Two different policy-meeting passwords cannot always have
    different digests. *)
Lemma hash_password_collides :
  ~ (forall p q h,
        Policy.meets p = true -> Policy.meets q = true ->
        hash_password p = Return h -> hash_password q = Return h -> p = q).
Proof.
  intros H.
  apply (pigeonhole (N.to_nat digests) (fun n => digest_of (long_password n))).
  - intros i. rewrite N2Nat.id. apply digest_of_bound.
  - intros i j E. apply long_password_inj.
    destruct (validate_password_hashes (long_password i)) as [hi Hi].
    { apply meets_validates, long_password_meets. }
    destruct (validate_password_hashes (long_password j)) as [hj Hj].
    { apply meets_validates, long_password_meets. }
    pose proof (hash_password_digest_of _ _ Hi) as Ei.
    pose proof (hash_password_digest_of _ _ Hj) as Ej.
    rewrite E in Ei. rewrite <- Ej in Ei. subst hj.
    apply (H _ _ hi); auto using long_password_meets.
Qed.

(* ----------------------------------------------------------------- *)
(** ** Register, login, reset *)

Lemma bind_text_ok (s u : pystr) : bind_text s = Return u -> bind_text s = Return s.
Proof. intros H. pose proof (bind_text_inv _ _ H) as ->. exact H. Qed.

Lemma existsb_false {A} (f : A -> bool) (l : list A) :
  existsb f l = false <-> forall x, In x l -> f x = false.
Proof.
  induction l as [|a l IH]; simpl.
  - split; [intros _ x [] | reflexivity].
  - rewrite orb_false_iff, IH. split.
    + intros [Ha Hl] x [<-|Hx]; auto.
    + intros H. split; [apply H; now left | intros x Hx; apply H; now right].
Qed.

Lemma find_app_skip {A} (f : A -> bool) (l l' : list A) :
  (forall x, In x l -> f x = false) -> find f (l ++ l') = find f l'.
Proof.
  induction l as [|a l IH]; intros H; simpl; [reflexivity|].
  rewrite (H a (or_introl eq_refl)). apply IH. intros x Hx. apply H. now right.
Qed.

(** A successful INSERT: the parameters were bound, no row had the
    username or the email, and the new row is the last one. *)
Lemma insert_user_inv (t t' : users_table) (username email password : pystr) :
  insert_user t username email password = (Return tt, t') ->
  bind_text username = Return username
  /\ bind_text email = Return email
  /\ bind_text password = Return password
  /\ (forall r, In r (u_rows t) -> eqb (u_username r) username = false)
  /\ (forall r, In r (u_rows t) -> eqb (u_email r) email = false)
  /\ t' = mk_users (u_rows t ++ [mk_user (u_seq t + 1) username email password])
                   (u_seq t + 1).
Proof.
  unfold insert_user.
  destruct (bind_text username) as [u|] eqn:Eu; simpl; [|discriminate].
  destruct (bind_text email) as [e|] eqn:Ee; simpl; [|discriminate].
  destruct (bind_text password) as [p|] eqn:Ep; simpl; [|discriminate].
  apply bind_text_inv in Eu, Ee, Ep. subst u e p.
  destruct (existsb _ _ || existsb _ _) eqn:D; [discriminate|].
  apply orb_false_iff in D. destruct D as [Du De].
  rewrite existsb_false in Du, De. intros H. inversion H. auto 6.
Qed.

(** A violated UNIQUE constraint: nothing is written. *)
Lemma insert_user_unchanged (t t' : users_table) (username email password : pystr) c :
  insert_user t username email password = (Raise c, t') -> t' = t.
Proof.
  unfold insert_user. destruct (bind _ _) as [[[u e] p]|].
  - destruct (_ || _); intros H; now inversion H.
  - intros H. now inversion H.
Qed.

Lemma insert_user_duplicate (t : users_table) (username email password : pystr) :
  bind_text username = Return username ->
  bind_text email = Return email ->
  bind_text password = Return password ->
  (exists r, In r (u_rows t) /\ (u_username r = username \/ u_email r = email)) ->
  insert_user t username email password = (Raise IntegrityError, t).
Proof.
  intros Bu Be Bp (r & Hin & Hr). unfold insert_user. rewrite Bu, Be, Bp. simpl.
  replace (existsb _ _ || existsb _ _) with true; [reflexivity|].
  symmetry. apply orb_true_iff.
  destruct Hr as [Hr|Hr]; [left | right]; apply existsb_exists; exists r;
    (split; [assumption | now apply eqb_eq]).
Qed.

Lemma register_user_true_inv (t t' : users_table) (username email password : pystr) :
  register_user t username email password = (Return (VBool true), t') ->
  validate_password password = true
  /\ exists h, hash_password password = Return h
               /\ insert_user t username email h = (Return tt, t').
Proof.
  unfold register_user. destruct (validate_password password); simpl; [|discriminate].
  destruct (hash_password password) as [h|]; [|discriminate].
  destruct (insert_user t username email h) as [[[]|c] t''] eqn:E.
  - intros H. inversion H; subst. eauto.
  - destruct c; discriminate.
Qed.

(** Login after a successful registration, for any password that has
    a digest: it is decided by comparing the digests. *)
Lemma login_after_register (t t' : users_table) (username email password : pystr) :
  register_user t username email password = (Return (VBool true), t') ->
  exists h,
    hash_password password = Return h
    /\ forall p' h',
        hash_password p' = Return h' ->
        login_user t' email p'
        = Return (if eqb h' h
                  then Some (mk_user (u_seq t + 1) username email h)
                  else None).
Proof.
  intros R. apply register_user_true_inv in R. destruct R as (_ & h & Hh & I).
  apply insert_user_inv in I. destruct I as (_ & Be & _ & _ & De & ->).
  exists h. split; [assumption|]. intros p' h' Hp'.
  unfold login_user, select_user. rewrite Hp'. simpl. rewrite Be. simpl.
  rewrite (bind_text_digest _ _ Hp'). simpl.
  rewrite find_app_skip.
  - simpl. rewrite eqb_refl, (eqb_sym h h'). reflexivity.
  - intros r Hr. now rewrite (De r Hr).
Qed.

(** Registration of a new username and email with an accepted
    password succeeds. *)
Lemma register_user_fresh (t : users_table) (username email password : pystr) :
  validate_password password = true ->
  bind_text username = Return username ->
  bind_text email = Return email ->
  (forall r, In r (u_rows t) -> u_username r <> username /\ u_email r <> email) ->
  exists t', register_user t username email password = (Return (VBool true), t').
Proof.
  intros V Bu Be Hfresh. unfold register_user. rewrite V. simpl.
  destruct (validate_password_hashes _ V) as [h Hh]. rewrite Hh.
  unfold insert_user. rewrite Bu, Be, (bind_text_digest _ _ Hh). simpl.
  replace (existsb _ _ || existsb _ _) with false; [eauto|].
  symmetry. apply orb_false_iff.
  split; apply existsb_false; intros r Hr; apply eqb_neq; now apply Hfresh.
Qed.

(** C2, as the code has it.  After a successful registration with an
    accepted password, login with the email and that password returns
    the new row, which holds the username, the email and the digest
    of the password; login with a password of another digest returns
    no row.  The digest is a function of the password. *)
Theorem register_then_login (t t' : users_table) (username email password : pystr) :
  validate_password password = true ->
  register_user t username email password = (Return (VBool true), t') ->
  exists h row,
    hash_password password = Return h
    /\ login_user t' email password = Return (Some row)
    /\ In row (u_rows t')
    /\ u_username row = username /\ u_email row = email /\ u_password row = h
    /\ forall p' h',
        hash_password p' = Return h' -> h' <> h ->
        login_user t' email p' = Return None.
Proof.
  intros _ R. destruct (login_after_register _ _ _ _ _ R) as (h & Hh & L).
  exists h, (mk_user (u_seq t + 1) username email h).
  repeat split; try assumption.
  - rewrite (L _ _ Hh), eqb_refl. reflexivity.
  - apply register_user_true_inv in R. destruct R as (_ & h0 & Hh0 & I).
    rewrite Hh in Hh0. inversion Hh0; subst h0.
    apply insert_user_inv in I. destruct I as (_ & _ & _ & _ & _ & ->).
    simpl. apply in_or_app. right. now left.
  - intros p' h' Hp' Hne. rewrite (L _ _ Hp').
    apply eqb_neq in Hne. now rewrite Hne.
Qed.

Lemma register_then_login_witness :
  validate_password Scenario.alice_password = true
  /\ register_user no_users Scenario.alice Scenario.alice_email Scenario.alice_password
     = (Return (VBool true), Scenario.users_with_alice)
  /\ exists h row,
      hash_password Scenario.alice_password = Return h
      /\ login_user Scenario.users_with_alice Scenario.alice_email
                    Scenario.alice_password = Return (Some row)
      /\ In row (u_rows Scenario.users_with_alice)
      /\ u_username row = Scenario.alice /\ u_email row = Scenario.alice_email
      /\ u_password row = h
      /\ forall p' h',
          hash_password p' = Return h' -> h' <> h ->
          login_user Scenario.users_with_alice Scenario.alice_email p' = Return None.
Proof.
  assert (validate_password Scenario.alice_password = true) as V by reflexivity.
  assert (register_user no_users Scenario.alice Scenario.alice_email
                        Scenario.alice_password
          = (Return (VBool true), Scenario.users_with_alice)) as R
      by (vm_compute; reflexivity).
  split; [exact V | split; [exact R |]].
  exact (register_then_login _ _ _ _ _ V R).
Defined.

(** The scenario of the specification: alice registers, logs in with
    her password, and is refused with another one. *)
Example scenario_login :
  login_user Scenario.users_with_alice Scenario.alice_email Scenario.alice_password
  = Return (Some Scenario.alice_row)
  /\ login_user Scenario.users_with_alice Scenario.alice_email (str "wrong")
     = Return None.
Proof. split; vm_compute; reflexivity. Qed.

(** The claim as worded, that login with any other password returns
    no row, fails: there are more accepted passwords than digests, so
    two of them share a digest, and after registering with one, login
    with the other returns the row. *)
Lemma login_other_password_not_always_refused :
  ~ (forall (t t' : users_table) (username email password p' : pystr),
        validate_password password = true ->
        register_user t username email password = (Return (VBool true), t') ->
        p' <> password ->
        login_user t' email p' = Return None).
Proof.
  intros Claim. apply hash_password_collides. intros p q h Mp Mq Hp Hq.
  destruct (list_eq_dec N.eq_dec p q) as [E|NE]; [assumption|]. exfalso.
  destruct (register_user_fresh no_users Scenario.alice Scenario.alice_email p)
    as [t' R]; try reflexivity.
  { now apply meets_validates. }
  { intros r []. }
  assert (login_user t' Scenario.alice_email q = Return None) as L.
  { apply (Claim _ _ _ _ _ _ (meets_validates _ Mp) R). congruence. }
  destruct (login_after_register _ _ _ _ _ R) as (h0 & Hh0 & L').
  rewrite Hp in Hh0. inversion Hh0; subst h0.
  rewrite (L' _ _ Hq), eqb_refl in L. discriminate.
Qed.

(** Whatever the outcome, a registration that repeats a username or
    an email writes nothing. *)
Lemma register_user_duplicate_unchanged (t : users_table)
      (username email password : pystr) :
  (exists r, In r (u_rows t) /\ (u_username r = username \/ u_email r = email)) ->
  snd (register_user t username email password) = t.
Proof.
  intros (r & Hin & Hr). unfold register_user.
  destruct (validate_password password); simpl; [|reflexivity].
  destruct (hash_password password) as [h|]; [|reflexivity].
  destruct (insert_user t username email h) as [[[]|c] t'] eqn:E.
  - exfalso. apply insert_user_inv in E. destruct E as (_ & _ & _ & Du & De & _).
    destruct Hr as [Hr|Hr].
    + specialize (Du r Hin). apply eqb_neq in Du. contradiction.
    + specialize (De r Hin). apply eqb_neq in De. contradiction.
  - apply insert_user_unchanged in E. subst t'. now destruct c.
Qed.

(** C3, as the code has it.  In a store that already holds the
    username or the email, a registration leaves the store as it was;
    with an accepted password, and a username and an email that
    encode, it returns [False], the conflict.  (The password is
    checked first: with a rejected one the answer is ['invalid'].) *)
Theorem register_duplicate_conflict (t : users_table)
        (username email password : pystr) :
  (exists r, In r (u_rows t) /\ (u_username r = username \/ u_email r = email)) ->
  snd (register_user t username email password) = t
  /\ (validate_password password = true ->
      bind_text username = Return username ->
      bind_text email = Return email ->
      register_user t username email password = (Return (VBool false), t)).
Proof.
  intros Dup. split; [now apply register_user_duplicate_unchanged|].
  intros V Bu Be. unfold register_user. rewrite V. simpl.
  destruct (validate_password_hashes _ V) as [h Hh]. rewrite Hh.
  rewrite insert_user_duplicate; auto. apply (bind_text_digest _ _ Hh).
Qed.

Lemma register_duplicate_conflict_witness :
  (exists r, In r (u_rows Scenario.users_with_alice)
             /\ (u_username r = str "alice2" \/ u_email r = Scenario.alice_email))
  /\ validate_password Scenario.alice_password = true
  /\ bind_text (str "alice2") = Return (str "alice2")
  /\ bind_text Scenario.alice_email = Return Scenario.alice_email
  /\ snd (register_user Scenario.users_with_alice (str "alice2")
                        Scenario.alice_email Scenario.alice_password)
     = Scenario.users_with_alice
  /\ register_user Scenario.users_with_alice (str "alice2")
                   Scenario.alice_email Scenario.alice_password
     = (Return (VBool false), Scenario.users_with_alice).
Proof.
  assert (exists r, In r (u_rows Scenario.users_with_alice)
                    /\ (u_username r = str "alice2" \/ u_email r = Scenario.alice_email))
    as Dup.
  { exists Scenario.alice_row. split; [now left | now right]. }
  destruct (register_duplicate_conflict Scenario.users_with_alice (str "alice2")
              Scenario.alice_email Scenario.alice_password Dup) as [U C].
  split; [exact Dup|].
  split; [reflexivity|]. split; [reflexivity|]. split; [reflexivity|].
  split; [exact U|]. apply C; reflexivity.
Defined.

(** The claim as worded promises the conflict for every attempt that
    repeats a username or an email.  With alice's username and a
    password the policy rejects, the answer is ['invalid'], not
    [False]; with alice's email, an accepted password and a username
    that is a lone surrogate, binding the username raises
    [UnicodeEncodeError], which [except sqlite3.IntegrityError] does
    not catch. *)
Lemma register_duplicate_without_conflict :
  In Scenario.alice_row (u_rows Scenario.users_with_alice)
  /\ u_username Scenario.alice_row = Scenario.alice
  /\ u_email Scenario.alice_row = Scenario.alice_email
  /\ register_user Scenario.users_with_alice Scenario.alice (str "other@x.com")
                   (str "short")
     = (Return (VStr (str "invalid")), Scenario.users_with_alice)
  /\ register_user Scenario.users_with_alice [0xD800%N] Scenario.alice_email
                   Scenario.alice_password
     = (Raise UnicodeEncodeError, Scenario.users_with_alice).
Proof.
  split; [now left|]. split; [reflexivity|]. split; [reflexivity|].
  split; vm_compute; reflexivity.
Qed.

(** [reset_password] has two answers only, ['invalid'] and [True]:
    both are truthy, and the form never reports an unknown email. *)
Lemma reset_password_truthy (t t' : users_table) (email new_password : pystr) v :
  reset_password t email new_password = (Return v, t') -> truthy v = true.
Proof.
  unfold reset_password. destruct (validate_password new_password); simpl.
  - destruct (hash_password new_password) as [h|]; [|discriminate].
    destruct (update_password t h email) as [[[]|c] t'']; [|discriminate].
    intros H. now inversion H.
  - intros H. now inversion H.
Qed.

Lemma reset_button_never_not_found (t t' : users_table) (email new_password : pystr) :
  reset_button t email new_password <> (Return EmailNotFound, t').
Proof.
  unfold reset_button. destruct (_ || _); [discriminate|].
  destruct (negb _); [discriminate|].
  destruct (reset_password t email new_password) as [[v|c] t''] eqn:E;
    [|discriminate].
  rewrite (reset_password_truthy _ _ _ _ _ E). discriminate.
Qed.

(** With an accepted password, the stored digest of every row with
    the email is replaced, and the answer is [True]. *)
Lemma reset_password_updates (t : users_table) (email new_password h : pystr) :
  validate_password new_password = true ->
  hash_password new_password = Return h ->
  bind_text email = Return email ->
  reset_password t email new_password
  = (Return (VBool true),
     mk_users (map (fun r => if eqb (u_email r) email
                             then mk_user (id r) (u_username r) (u_email r) h
                             else r)
                   (u_rows t))
              (u_seq t)).
Proof.
  intros V Hh Be. unfold reset_password, update_password.
  now rewrite V, Hh, (bind_text_digest _ _ Hh), Be.
Qed.

(** C4.  The claim: with an email that no stored user has,
    [reset_password] reports not-found.  The function returns [True]
    after the UPDATE without looking at the number of rows changed:
    on the empty store, and on a store that holds alice only, a reset
    for [nobody@x.com] answers [True] and the form shows the success
    notice; its "Email not found." branch is never taken. *)
Theorem reset_password_unknown_email_succeeds :
  reset_password no_users (str "nobody@x.com") (str "N3wPassw0rd!")
  = (Return (VBool true), no_users)
  /\ reset_password Scenario.users_with_alice (str "nobody@x.com") (str "N3wPassw0rd!")
     = (Return (VBool true), Scenario.users_with_alice)
  /\ reset_button Scenario.users_with_alice (str "nobody@x.com") (str "N3wPassw0rd!")
     = (Return ResetSuccessful, Scenario.users_with_alice).
Proof. repeat (apply conj; [vm_compute; reflexivity|]). vm_compute. reflexivity. Qed.

(* ----------------------------------------------------------------- *)
(** ** The advice gateway *)

(** An exception leaves [get_gemini_response] only if its class is
    outside [Exception]. *)
Lemma get_gemini_response_raises (g : genai) (prompt : pystr) (c : exc_class) :
  get_gemini_response g prompt = Raise c -> isinstance_Exception c = false.
Proof.
  unfold get_gemini_response.
  destruct (match get_model g with Ok _ => _ | Fail c0 msg => _ end)
    as [v|c0 msg]; [discriminate|].
  destruct (isinstance_Exception c0) eqn:E; [discriminate|].
  intros H. inversion H. now subst.
Qed.

(** C5.  When the call of the generative service fails, that is,
    raises an exception whose class derives from [Exception], the
    gateway returns the error prefix followed by the text of the
    exception, for every prompt; and whatever happens inside, at any
    of its three steps, no exception of such a class leaves the
    gateway. *)
Theorem get_gemini_response_catches (g : genai) (prompt : pystr) :
  (forall c msg,
      get_model g = Ok tt ->
      generate_content g prompt = Fail c msg ->
      isinstance_Exception c = true ->
      get_gemini_response g prompt = Return (error_prefix ++ msg))
  /\ (forall c, get_gemini_response g prompt = Raise c ->
                isinstance_Exception c = false).
Proof.
  split; [|apply get_gemini_response_raises].
  intros c msg M F E. unfold get_gemini_response. now rewrite M, F, E.
Qed.

Lemma get_gemini_response_catches_witness :
  get_model (Scenario.failing RuntimeError (str "quota exceeded")) = Ok tt
  /\ generate_content (Scenario.failing RuntimeError (str "quota exceeded"))
                      (str "hello")
     = Fail RuntimeError (str "quota exceeded")
  /\ isinstance_Exception RuntimeError = true
  /\ get_gemini_response (Scenario.failing RuntimeError (str "quota exceeded"))
                         (str "hello")
     = Return (str "Error: quota exceeded").
Proof.
  split; [reflexivity|]. split; [reflexivity|]. split; [reflexivity|].
  exact (proj1 (get_gemini_response_catches
                  (Scenario.failing RuntimeError (str "quota exceeded"))
                  (str "hello"))
               RuntimeError (str "quota exceeded") eq_refl eq_refl eq_refl).
Defined.

(** A response without [text] is shown through its [str()]; a [text]
    that raises [ValueError] becomes an error string. *)
Example get_gemini_response_text :
  get_gemini_response
    (mk_genai (fun _ => Ok tt)
              (fun _ => Ok (mk_response (Fail AttributeError (str "text"))
                                                (str "<response>"))))
    (str "hello")
  = Return (str "<response>")
  /\ get_gemini_response
       (mk_genai (fun _ => Ok tt)
                 (fun _ => Ok (mk_response (Fail ValueError (str "no parts"))
                                                   (str "<response>"))))
       (str "hello")
     = Return (str "Error: no parts").
Proof. split; reflexivity. Qed.

(* ----------------------------------------------------------------- *)
(** ** The dashboard *)

(** C7.  For the empty frame the dashboard shows the warning and
    nothing else; it shows the warning for the empty frame only, so
    charts and totals appear exactly when there is a row, rows of
    amount zero included; and the charts are built from the rows of
    the frame. *)
Theorem render_dashboard_empty {amount : Type} (sums : summation amount) :
  render_dashboard sums [] = NoExpensesYet
  /\ (forall df, render_dashboard sums df = NoExpensesYet <-> df = [])
  /\ (forall df, df <> [] <->
                 render_dashboard sums df
                 = Charts df (category_totals sums df)
                          (monthly_totals sums df)
                          (series_sum sums (map e_amount df))).
Proof.
  split; [reflexivity|]. split; intros [|r df]; simpl; split; congruence.
Qed.

Lemma render_dashboard_empty_witness :
  render_dashboard exact_sums [] = NoExpensesYet
  /\ render_dashboard exact_sums
       [mk_expense 1%Z (SqlText Scenario.alice) Scenario.jan5 (str "Food") 0%Z (str "")]
     <> NoExpensesYet.
Proof.
  destruct (render_dashboard_empty exact_sums) as (E & I & _).
  split; [exact E|]. intros H. apply I in H. discriminate.
Defined.

Example dashboard_page_no_rows {R : Rounding} :
  dashboard_page exact_sums Scenario.alice_session no_expenses = Return NoExpensesYet.
Proof. reflexivity. Qed.

(* ----------------------------------------------------------------- *)
(** ** Grouped sums *)

Section GroupByFacts.
Context {key amount : Type}.
Variable compare : key -> key -> comparison.
Variable sums : summation amount.

Hypothesis compare_eq : forall a b, compare a b = Eq <-> a = b.
Hypothesis compare_antisym : forall a b, compare b a = CompOpp (compare a b).
Hypothesis compare_trans :
  forall a b c, compare a b = Lt -> compare b c = Lt -> compare a c = Lt.














Section Rows.
Context {row : Type}.
Variable key_of : row -> key.
Variable col : row -> amount.








End Rows.
End GroupByFacts.

(** With exact amounts the grouped sum and the sum of a column are
    the same sum. *)
Lemma exact_sums_group (vals : list Z) :
  group_sum exact_sums vals = fold_left Z.add vals 0%Z
  /\ series_sum exact_sums vals = fold_left Z.add vals 0%Z.
Proof. split; reflexivity. Qed.

(** With binary64 amounts the grouped sum is compensated: 1e16, 1 and
    1 add up to 10000000000000002, where adding them one after
    another gives 1e16. *)
Example kahan_sum_compensates (series : list PrimFloat.float -> PrimFloat.float) :
  group_sum (Binary64.sums series)
            [Binary64.ten_to_16; Binary64.one; Binary64.one]
  = Binary64.ten_to_16_plus_2
  /\ Binary64.plain_sum [Binary64.ten_to_16; Binary64.one; Binary64.one]
     = Binary64.ten_to_16.
Proof. split; vm_compute; reflexivity. Qed.

(* ----------------------------------------------------------------- *)
(** ** Monthly totals *)








(** The frame of the scenario: January before February, 100 and 50 of
    Food in the same month add up to 150. *)
Example dashboard_three_expenses :
  monthly_totals exact_sums Scenario.three_expenses
  = [((2024, 1), 250); ((2024, 2), 150)]%Z
  /\ category_totals exact_sums Scenario.three_expenses
     = [(str "Food", 150%Z); (str "Transport", 250%Z)]
  /\ series_sum exact_sums (map e_amount Scenario.three_expenses) = 400%Z.
Proof. repeat split. Qed.

(** In binary64: one expense of 100 and one of 50 in Food, of the
    same month, give the category total 150 and the month total
    150. *)
Example food_100_and_50 (series : list PrimFloat.float -> PrimFloat.float) :
  let df := [mk_expense 1%Z (SqlText Scenario.alice) Scenario.jan5 (str "Food")
                        Binary64.hundred (str "Lunch");
             mk_expense 2%Z (SqlText Scenario.alice) (mk_date 2024 1 20) (str "Food")
                        Binary64.fifty (str "Dinner")] in
  category_totals (Binary64.sums series) df = [(str "Food", Binary64.hundred_fifty)]
  /\ monthly_totals (Binary64.sums series) df
     = [((2024, 1)%Z, Binary64.hundred_fifty)].
Proof. split; vm_compute; reflexivity. Qed.

(** Three expenses of one month, in binary64: their monthly total is
    the compensated sum, whatever the kernel of [Series.sum()]. *)
Example monthly_totals_binary64 (series : list PrimFloat.float -> PrimFloat.float) :
  monthly_totals (Binary64.sums series)
    [mk_expense 1%Z (SqlText Scenario.alice) Scenario.jan5 (str "Bills")
                Binary64.ten_to_16 (str "");
     mk_expense 2%Z (SqlText Scenario.alice) Scenario.jan5 (str "Food")
                Binary64.one (str "");
     mk_expense 3%Z (SqlText Scenario.alice) Scenario.jan5 (str "Food")
                Binary64.one (str "")]
  = [((2024, 1)%Z, Binary64.ten_to_16_plus_2)].
Proof. vm_compute. reflexivity. Qed.

(* ================================================================= *)
(** * Further properties of the code *)

(* ----------------------------------------------------------------- *)
(** ** Digests *)

Lemma hex_length (n : nat) (x : N) : List.length (Sha256.hex n x) = n.
Proof.
  revert x. induction n as [|n IH]; intros x; simpl; [reflexivity|].
  rewrite length_app, IH. simpl. lia.
Qed.

Lemma hex_digit_char (d : N) : (d < 16)%N -> hex_char (Sha256.hex_digit d) = true.
Proof.
  intros H. unfold Sha256.hex_digit, hex_char.
  change (ch "0") with 48%N. change (ch "9") with 57%N.
  change (ch "a") with 97%N. change (ch "f") with 102%N.
  destruct (N.ltb_spec d 10); apply orb_true_iff; [left | right];
    apply andb_true_iff; split; apply N.leb_le; lia.
Qed.

Lemma hex_chars (n : nat) (x : N) : forallb hex_char (Sha256.hex n x) = true.
Proof.
  revert x. induction n as [|n IH]; intros x; simpl; [reflexivity|].
  rewrite forallb_app, IH. simpl. rewrite hex_digit_char; [reflexivity|].
  apply N.mod_lt. discriminate.
Qed.

Lemma hexdigest_is_digest (bytes : list N) : is_digest (Sha256.hexdigest bytes) = true.
Proof.
  unfold is_digest, Sha256.hexdigest. now rewrite hex_length, hex_chars.
Qed.

Lemma encode_char_encodable (c : N) :
  Utf8.encode_char c = None <-> encodable c = false.
Proof.
  split.
  - intros E. destruct (encodable c) eqn:Ec; [|reflexivity]. exfalso.
    destruct (encode_char_some c) as [bs Hbs]; [|congruence].
    unfold encodable in Ec. apply orb_true_iff in Ec. destruct Ec as [Ec|Ec].
    + apply N.ltb_lt in Ec. now left.
    + apply andb_true_iff in Ec. destruct Ec as [E1 E2].
      apply N.ltb_lt in E1, E2. now right.
  - unfold encodable. intros Ec. apply orb_false_iff in Ec. destruct Ec as [E1 E2].
    apply N.ltb_ge in E1. apply andb_false_iff in E2.
    assert (c <= 0xDFFF \/ 0x110000 <= c)%N as H.
    { destruct E2 as [E2|E2]; apply N.ltb_ge in E2; auto. }
    unfold Utf8.encode_char.
    destruct (N.ltb_spec c 0x80); [lia|].
    destruct (N.ltb_spec c 0x800); [lia|].
    destruct (N.ltb_spec c 0x10000).
    + destruct (N.leb_spec 0xD800 c); [|lia].
      destruct (N.leb_spec c 0xDFFF); [reflexivity | lia].
    + destruct (N.ltb_spec c 0x110000); [lia | reflexivity].
Qed.

Lemma encode_raises (s : pystr) :
  forallb encodable s = false -> Utf8.encode s = Raise UnicodeEncodeError.
Proof.
  induction s as [|c s IH]; simpl; [discriminate|].
  destruct (Utf8.encode_char c) as [bs|] eqn:E; [|reflexivity].
  destruct (encodable c) eqn:Ec.
  - simpl. intros H. now rewrite (IH H).
  - apply encode_char_encodable in Ec. congruence.
Qed.

Lemma encode_returns (s : pystr) :
  forallb encodable s = true -> exists bytes, Utf8.encode s = Return bytes.
Proof.
  intros H. apply encode_forall. intros c Hin.
  rewrite forallb_forall in H. specialize (H c Hin).
  destruct (Utf8.encode_char c) as [bs|] eqn:E; [eauto|].
  apply encode_char_encodable in E. congruence.
Qed.

(** X1.  [hash_password] has two outcomes.  On a password all of
    whose code points have a UTF-8 form it returns a string of 64
    lower-case hexadecimal digits; on any other password it raises
    [UnicodeEncodeError]. *)
Theorem hash_password_outcomes (password : pystr) :
  (forallb encodable password = true
   /\ exists h, hash_password password = Return h /\ is_digest h = true)
  \/ (forallb encodable password = false
      /\ hash_password password = Raise UnicodeEncodeError).
Proof.
  unfold hash_password. destruct (forallb encodable password) eqn:E.
  - left. split; [reflexivity|]. destruct (encode_returns _ E) as [bytes ->].
    simpl. eexists. split; [reflexivity | apply hexdigest_is_digest].
  - right. split; [reflexivity|]. now rewrite (encode_raises _ E).
Qed.

Lemma hash_password_is_digest (password h : pystr) :
  hash_password password = Return h -> is_digest h = true.
Proof.
  intros H. apply hash_password_inv in H. destruct H as (bytes & _ & ->).
  apply hexdigest_is_digest.
Qed.

Lemma uppercase_not_hex (c : N) : Policy.uppercase c = true -> hex_char c = false.
Proof.
  unfold Policy.uppercase, hex_char.
  change (ch "0") with 48%N. change (ch "9") with 57%N.
  change (ch "a") with 97%N. change (ch "f") with 102%N.
  change (ch "A") with 65%N. change (ch "Z") with 90%N.
  intros H. apply andb_true_iff in H. destruct H as [H1 H2].
  apply N.leb_le in H1, H2.
  apply orb_false_iff. split; apply andb_false_iff.
  - right. apply N.leb_gt. lia.
  - left. apply N.leb_gt. lia.
Qed.

(** X2.  The digest of an accepted password is never the password
    itself: what [register_user] and [reset_password] store differs
    from the plaintext. *)
Theorem hash_password_not_plaintext (password h : pystr) :
  validate_password password = true ->
  hash_password password = Return h ->
  h <> password.
Proof.
  intros V H E. subst h. apply hash_password_is_digest in H.
  apply validate_password_spec in V. destruct V as (w & rest & -> & _ & M).
  apply meets_inv in M. destruct M as (_ & _ & _ & U & _).
  apply existsb_exists in U. destruct U as (c & Hin & Hc).
  unfold is_digest in H. apply andb_true_iff in H. destruct H as [_ H].
  rewrite forallb_forall in H. specialize (H c (in_or_app _ _ _ (or_introl Hin))).
  rewrite (uppercase_not_hex _ Hc) in H. discriminate.
Qed.

Lemma hash_password_not_plaintext_witness :
  validate_password Scenario.alice_password = true
  /\ hash_password Scenario.alice_password = Return Scenario.alice_digest
  /\ Scenario.alice_digest <> Scenario.alice_password.
Proof.
  assert (validate_password Scenario.alice_password = true) as V by reflexivity.
  assert (hash_password Scenario.alice_password = Return Scenario.alice_digest) as H
      by (vm_compute; reflexivity).
  split; [exact V | split; [exact H |]].
  exact (hash_password_not_plaintext _ _ V H).
Defined.

(* ----------------------------------------------------------------- *)
(** ** What the authentication functions return and write *)

Lemma bind_text_cases (s : pystr) :
  (forallb encodable s = true /\ bind_text s = Return s)
  \/ (forallb encodable s = false /\ bind_text s = Raise UnicodeEncodeError).
Proof.
  unfold bind_text. destruct (forallb encodable s) eqn:E.
  - left. split; [reflexivity|]. now destruct (encode_returns _ E) as [bytes ->].
  - right. split; [reflexivity|]. now rewrite (encode_raises _ E).
Qed.

(** With an accepted password [register_user] adds a row and answers
    [True], or finds the username or the email taken and answers
    [False], or fails to encode the username or the email. *)
Lemma register_user_accepted (t : users_table) (username email password : pystr) :
  validate_password password = true ->
  ((forall r, In r (u_rows t) -> u_username r <> username /\ u_email r <> email)
   /\ forallb encodable username = true /\ forallb encodable email = true
   /\ exists h,
       hash_password password = Return h
       /\ register_user t username email password
          = (Return (VBool true),
             mk_users (u_rows t ++ [mk_user (u_seq t + 1) username email h])
                      (u_seq t + 1)))
  \/ ((exists r, In r (u_rows t) /\ (u_username r = username \/ u_email r = email))
      /\ register_user t username email password = (Return (VBool false), t))
  \/ ((forallb encodable username = false \/ forallb encodable email = false)
      /\ register_user t username email password = (Raise UnicodeEncodeError, t)).
Proof.
  intros V. unfold register_user. rewrite V. simpl.
  destruct (validate_password_hashes _ V) as [h Hh]. rewrite Hh.
  unfold insert_user.
  destruct (bind_text_cases username) as [[Eu Bu]|[Eu Bu]]; rewrite Bu; simpl.
  2:{ right. right. auto. }
  destruct (bind_text_cases email) as [[Ee Be]|[Ee Be]]; rewrite Be; simpl.
  2:{ right. right. auto. }
  rewrite (bind_text_digest _ _ Hh). simpl.
  destruct (existsb _ _ || existsb _ _) eqn:D.
  - right. left. split; [|reflexivity].
    apply orb_true_iff in D.
    destruct D as [D|D]; apply existsb_exists in D; destruct D as (r & Hin & D);
      apply eqb_eq in D; eauto.
  - left. split; [|eauto].
    apply orb_false_iff in D. destruct D as [Du De].
    rewrite existsb_false in Du, De. intros r Hr.
    split; apply eqb_neq; auto.
Qed.

(** X3.  [register_user] has four outcomes and no other.  It answers
    ['invalid'] exactly for a rejected password, [True] after adding
    one row (the next id, the username, the email and the digest)
    when no row had the username or the email, [False] when some row
    had one of them, and it raises [UnicodeEncodeError] when the
    username or the email cannot be encoded.  The table changes in
    the second case only; [IntegrityError] never leaves the
    function. *)
Theorem register_user_outcomes (t : users_table) (username email password : pystr) :
  (validate_password password = false
   /\ register_user t username email password = (Return (VStr (str "invalid")), t))
  \/ (validate_password password = true
      /\ (forall r, In r (u_rows t) -> u_username r <> username /\ u_email r <> email)
      /\ exists h,
          hash_password password = Return h
          /\ register_user t username email password
             = (Return (VBool true),
                mk_users (u_rows t ++ [mk_user (u_seq t + 1) username email h])
                         (u_seq t + 1)))
  \/ (validate_password password = true
      /\ (exists r, In r (u_rows t) /\ (u_username r = username \/ u_email r = email))
      /\ register_user t username email password = (Return (VBool false), t))
  \/ (validate_password password = true
      /\ (forallb encodable username = false \/ forallb encodable email = false)
      /\ register_user t username email password = (Raise UnicodeEncodeError, t)).
Proof.
  destruct (validate_password password) eqn:V.
  - right. destruct (register_user_accepted t username email _ V)
      as [(F & _ & _ & H)|[[D H]|[U H]]]; auto.
  - left. split; [reflexivity|]. unfold register_user. now rewrite V.
Qed.

Lemma map_update_same {A} (f : user_row -> A) (email h : pystr) (rows : list user_row) :
  (forall r, f (mk_user (id r) (u_username r) (u_email r) h) = f r) ->
  map f (map (fun r => if eqb (u_email r) email
                       then mk_user (id r) (u_username r) (u_email r) h
                       else r) rows)
  = map f rows.
Proof.
  intros H. rewrite map_map. apply map_ext. intros r.
  destruct (eqb (u_email r) email); auto.
Qed.

Lemma update_none (email h : pystr) (rows : list user_row) :
  (forall r, In r rows -> u_email r <> email) ->
  map (fun r => if eqb (u_email r) email
                then mk_user (id r) (u_username r) (u_email r) h
                else r) rows
  = rows.
Proof.
  intros H. rewrite <- (map_id rows) at 2. apply map_ext_in. intros r Hr.
  specialize (H r Hr). apply eqb_neq in H. now rewrite H.
Qed.

(** X4.  [reset_password] has three outcomes and no other: ['invalid']
    exactly for a rejected password, [UnicodeEncodeError] for an
    email that cannot be encoded, and [True] otherwise.  It never
    adds or removes a row and never changes an id, a username, an
    email or the counter; a row whose email is another one is left as
    it was; and when no row has the email the table is left as it
    was, the answer still being [True]. *)
Theorem reset_password_outcomes (t : users_table) (email new_password : pystr) :
  (validate_password new_password = false
   /\ reset_password t email new_password = (Return (VStr (str "invalid")), t))
  \/ (validate_password new_password = true
      /\ forallb encodable email = false
      /\ reset_password t email new_password = (Raise UnicodeEncodeError, t))
  \/ (validate_password new_password = true
      /\ forallb encodable email = true
      /\ exists t',
          reset_password t email new_password = (Return (VBool true), t')
          /\ u_seq t' = u_seq t
          /\ map id (u_rows t') = map id (u_rows t)
          /\ map u_username (u_rows t') = map u_username (u_rows t)
          /\ map u_email (u_rows t') = map u_email (u_rows t)
          /\ (forall r, In r (u_rows t') -> u_email r <> email -> In r (u_rows t))
          /\ ((forall r, In r (u_rows t) -> u_email r <> email) -> t' = t)).
Proof.
  unfold reset_password. destruct (validate_password new_password) eqn:V; simpl;
    [right | left; auto].
  destruct (validate_password_hashes _ V) as [h Hh]. rewrite Hh.
  unfold update_password. rewrite (bind_text_digest _ _ Hh). simpl.
  destruct (bind_text_cases email) as [[Ee Be]|[Ee Be]]; rewrite Be; simpl.
  2:{ left. auto. }
  right. split; [reflexivity|]. split; [exact Ee|].
  eexists. split; [reflexivity|]. simpl.
  split; [reflexivity|].
  split; [now apply map_update_same|].
  split; [now apply map_update_same|].
  split; [now apply map_update_same|].
  split.
  - intros r Hin Hne. apply in_map_iff in Hin. destruct Hin as (r0 & E & Hin).
    destruct (eqb (u_email r0) email) eqn:E0.
    + subst r. simpl in Hne. apply eqb_eq in E0. contradiction.
    + now subst r.
  - intros H. rewrite (update_none _ _ _ H). now destruct t.
Qed.

(* ----------------------------------------------------------------- *)
(** ** The invariant of the [users] table *)

Lemma NoDup_snoc {A} (l : list A) (a : A) :
  NoDup l -> ~ In a l -> NoDup (l ++ [a]).
Proof.
  intros ND Hn. apply NoDup_app; [assumption | repeat constructor; easy |].
  intros x Hx [<-|[]]. contradiction.
Qed.

(** What [register_user] leaves: the table as it was, or one more
    row with a new username, a new email, the next id and a digest. *)
Lemma register_user_rows (t : users_table) (username email password : pystr) :
  snd (register_user t username email password) = t
  \/ exists h,
      is_digest h = true
      /\ (forall r, In r (u_rows t) -> u_username r <> username /\ u_email r <> email)
      /\ snd (register_user t username email password)
         = mk_users (u_rows t ++ [mk_user (u_seq t + 1) username email h])
                    (u_seq t + 1).
Proof.
  unfold register_user. destruct (validate_password password); simpl; [|now left].
  destruct (hash_password password) as [h|] eqn:Hh; [|now left].
  destruct (insert_user t username email h) as [[[]|c] t'] eqn:E.
  - right. exists h. apply insert_user_inv in E.
    destruct E as (_ & _ & _ & Du & De & ->).
    split; [now apply (hash_password_is_digest password)|].
    split; [|reflexivity]. intros r Hr. split; apply eqb_neq; auto.
  - left. apply insert_user_unchanged in E. subst t'. now destruct c.
Qed.

(** What [reset_password] leaves: the table as it was, or the same
    rows with a digest in the password of those that have the email. *)
Lemma reset_password_rows (t : users_table) (email new_password : pystr) :
  snd (reset_password t email new_password) = t
  \/ exists h,
      is_digest h = true
      /\ snd (reset_password t email new_password)
         = mk_users (map (fun r => if eqb (u_email r) email
                                   then mk_user (id r) (u_username r) (u_email r) h
                                   else r)
                         (u_rows t))
                    (u_seq t).
Proof.
  unfold reset_password. destruct (validate_password new_password); simpl; [|now left].
  destruct (hash_password new_password) as [h|] eqn:Hh; [|now left].
  unfold update_password. rewrite (bind_text_digest _ _ Hh). simpl.
  destruct (bind_text email) as [e|] eqn:Be; simpl; [|now left].
  apply bind_text_inv in Be. subst e.
  right. exists h. split; [now apply (hash_password_is_digest new_password)|].
  reflexivity.
Qed.

Lemma users_ok_register (t : users_table) (username email password : pystr) :
  users_ok t -> users_ok (snd (register_user t username email password)).
Proof.
  intros (S0 & Nu & Ne & Ni & Fi & Fd).
  destruct (register_user_rows t username email password)
    as [->|(h & Dh & Fresh & ->)]; [repeat split; assumption|].
  unfold users_ok. simpl. rewrite !map_app. simpl.
  split; [lia|].
  split.
  { apply NoDup_snoc; [assumption|]. intros Hin. apply in_map_iff in Hin.
    destruct Hin as (r & E & Hr). destruct (Fresh r Hr). contradiction. }
  split.
  { apply NoDup_snoc; [assumption|]. intros Hin. apply in_map_iff in Hin.
    destruct Hin as (r & E & Hr). destruct (Fresh r Hr). contradiction. }
  split.
  { apply NoDup_snoc; [assumption|]. intros Hin. apply in_map_iff in Hin.
    destruct Hin as (r & E & Hr). rewrite Forall_forall in Fi.
    specialize (Fi r Hr). lia. }
  split.
  - apply Forall_app. split.
    + eapply Forall_impl; [|exact Fi]. simpl. intros r Hr. lia.
    + repeat constructor; simpl; lia.
  - apply Forall_app. split; [assumption|]. repeat constructor. exact Dh.
Qed.

Lemma users_ok_reset (t : users_table) (email new_password : pystr) :
  users_ok t -> users_ok (snd (reset_password t email new_password)).
Proof.
  intros (S0 & Nu & Ne & Ni & Fi & Fd).
  destruct (reset_password_rows t email new_password)
    as [->|(h & Dh & ->)]; [repeat split; assumption|].
  unfold users_ok. simpl.
  rewrite !map_update_same by reflexivity.
  repeat split; try assumption.
  - rewrite Forall_forall in *. intros r Hin. apply in_map_iff in Hin.
    destruct Hin as (r0 & <- & Hin). specialize (Fi r0 Hin).
    now destruct (eqb (u_email r0) email).
  - rewrite Forall_forall in *. intros r Hin. apply in_map_iff in Hin.
    destruct Hin as (r0 & <- & Hin). specialize (Fd r0 Hin).
    now destruct (eqb (u_email r0) email).
Qed.

(** X5.  In every table that registrations and resets can produce
    from the empty one, no username, no email and no id occurs twice,
    the ids lie between 1 and the counter, and every stored password
    is a string of 64 hexadecimal digits. *)
Theorem reachable_users_ok (t : users_table) : reachable t -> users_ok t.
Proof.
  induction 1 as [|t username email password _ IH|t email new_password _ IH].
  - unfold users_ok, no_users. simpl. repeat split; try constructor. lia.
  - now apply users_ok_register.
  - now apply users_ok_reset.
Qed.

Lemma reachable_users_ok_witness :
  reachable Scenario.users_with_alice /\ users_ok Scenario.users_with_alice.
Proof.
  assert (reachable Scenario.users_with_alice) as R.
  { assert (snd (register_user no_users Scenario.alice Scenario.alice_email
                               Scenario.alice_password)
            = Scenario.users_with_alice) as E by (vm_compute; reflexivity).
    rewrite <- E. apply reach_register, reach_empty. }
  split; [exact R | exact (reachable_users_ok _ R)].
Defined.

(* ----------------------------------------------------------------- *)
(** ** Reset, then login *)

Lemma find_after_update (email h h' : pystr) (rows : list user_row) :
  find (fun r => eqb (u_email r) email && eqb (u_password r) h')
       (map (fun r => if eqb (u_email r) email
                      then mk_user (id r) (u_username r) (u_email r) h
                      else r)
            rows)
  = if eqb h h'
    then option_map (fun r => mk_user (id r) (u_username r) (u_email r) h)
                    (find (fun r => eqb (u_email r) email) rows)
    else None.
Proof.
  induction rows as [|r rows IH]; simpl; [now destruct (eqb h h')|].
  destruct (eqb (u_email r) email) eqn:E; simpl.
  - rewrite E. simpl. destruct (eqb h h') eqn:Eh; [reflexivity|].
    now rewrite IH.
  - rewrite E. simpl. exact IH.
Qed.

(** X6.  After a reset that answered [True], login with the email and
    the new password returns the first row that had the email, with
    its id and username and the new digest, and returns no row when
    no row had the email; login with a password of another digest,
    the old one among them, returns no row. *)
Theorem reset_then_login (t t' : users_table) (email new_password : pystr) :
  reset_password t email new_password = (Return (VBool true), t') ->
  exists h,
    hash_password new_password = Return h
    /\ login_user t' email new_password
       = Return (option_map (fun r => mk_user (id r) (u_username r) (u_email r) h)
                            (find (fun r => eqb (u_email r) email) (u_rows t)))
    /\ forall p' h',
        hash_password p' = Return h' -> h' <> h ->
        login_user t' email p' = Return None.
Proof.
  unfold reset_password. destruct (validate_password new_password); simpl;
    [|discriminate].
  destruct (hash_password new_password) as [h|] eqn:Hh; [|discriminate].
  unfold update_password. rewrite (bind_text_digest _ _ Hh). simpl.
  destruct (bind_text email) as [e|] eqn:Be; simpl; [|discriminate].
  pose proof (bind_text_inv _ _ Be) as ->. intros H. inversion H; subst t'; clear H.
  exists h. split; [reflexivity|].
  assert (forall p' h', hash_password p' = Return h' ->
            login_user (mk_users
                          (map (fun r => if eqb (u_email r) email
                                         then mk_user (id r) (u_username r) (u_email r) h
                                         else r) (u_rows t)) (u_seq t))
                       email p'
            = Return (if eqb h h'
                      then option_map
                             (fun r => mk_user (id r) (u_username r) (u_email r) h)
                             (find (fun r => eqb (u_email r) email) (u_rows t))
                      else None)) as L.
  { intros p' h' Hp'. unfold login_user, select_user. rewrite Hp'. simpl.
    rewrite Be. simpl. rewrite (bind_text_digest _ _ Hp'). simpl.
    now rewrite find_after_update. }
  split.
  - rewrite (L _ _ Hh), eqb_refl. reflexivity.
  - intros p' h' Hp' Hne. rewrite (L _ _ Hp').
    assert (eqb h h' = false) as -> by (apply eqb_neq; congruence). reflexivity.
Qed.

Lemma reset_then_login_witness :
  reset_password Scenario.users_with_alice Scenario.alice_email (str "N3wPassw0rd!")
  = (Return (VBool true),
     mk_users [mk_user 1 Scenario.alice Scenario.alice_email
                       (str "e200a154d6b009cd36acf983ed7bcc80381ddb7633738fb2b189adc34cabf614")] 1)
  /\ exists h,
      hash_password (str "N3wPassw0rd!") = Return h
      /\ login_user
           (mk_users [mk_user 1 Scenario.alice Scenario.alice_email
                              (str "e200a154d6b009cd36acf983ed7bcc80381ddb7633738fb2b189adc34cabf614")] 1)
           Scenario.alice_email (str "N3wPassw0rd!")
         = Return (option_map
                     (fun r => mk_user (id r) (u_username r) (u_email r) h)
                     (find (fun r => eqb (u_email r) Scenario.alice_email)
                           (u_rows Scenario.users_with_alice)))
      /\ forall p' h',
          hash_password p' = Return h' -> h' <> h ->
          login_user
            (mk_users [mk_user 1 Scenario.alice Scenario.alice_email
                               (str "e200a154d6b009cd36acf983ed7bcc80381ddb7633738fb2b189adc34cabf614")] 1)
            Scenario.alice_email p'
          = Return None.
Proof.
  assert (reset_password Scenario.users_with_alice Scenario.alice_email
                         (str "N3wPassw0rd!")
          = (Return (VBool true),
             mk_users [mk_user 1 Scenario.alice Scenario.alice_email
                               (str "e200a154d6b009cd36acf983ed7bcc80381ddb7633738fb2b189adc34cabf614")] 1)) as E
      by (vm_compute; reflexivity).
  split; [exact E | exact (reset_then_login _ _ _ _ E)].
Defined.

(* ----------------------------------------------------------------- *)
(** ** The Login and Register forms *)

(** X7.  After a successful registration, the Login button pressed
    with the email and the password logs the user in: the session
    holds the registered username and email, the page is kept, and
    the welcome names the user.  Pressed with a password of another
    digest it shows the error and leaves the session as it was. *)
Theorem register_then_login_button (s : session_state.t) (t t' : users_table)
        (username email password : pystr) :
  register_user t username email password = (Return (VBool true), t') ->
  exists h,
    hash_password password = Return h
    /\ login_button s t' email password
       = Return (session_state.mk true (Some username) (Some email)
                                  (session_state.page s),
                 WelcomeBack username)
    /\ forall p' h',
        hash_password p' = Return h' -> h' <> h ->
        login_button s t' email p' = Return (s, InvalidLogin).
Proof.
  intros R. destruct (login_after_register _ _ _ _ _ R) as (h & Hh & L).
  exists h. split; [assumption|]. unfold login_button. split.
  - rewrite (L _ _ Hh), eqb_refl. reflexivity.
  - intros p' h' Hp' Hne. rewrite (L _ _ Hp').
    apply eqb_neq in Hne. now rewrite Hne.
Qed.

Lemma register_then_login_button_witness :
  register_user no_users Scenario.alice Scenario.alice_email Scenario.alice_password
  = (Return (VBool true), Scenario.users_with_alice)
  /\ exists h,
      hash_password Scenario.alice_password = Return h
      /\ login_button session_init Scenario.users_with_alice Scenario.alice_email
                      Scenario.alice_password
         = Return (session_state.mk true (Some Scenario.alice)
                                    (Some Scenario.alice_email)
                                    (session_state.page session_init),
                   WelcomeBack Scenario.alice)
      /\ forall p' h',
          hash_password p' = Return h' -> h' <> h ->
          login_button session_init Scenario.users_with_alice Scenario.alice_email p'
          = Return (session_init, InvalidLogin).
Proof.
  assert (register_user no_users Scenario.alice Scenario.alice_email
                        Scenario.alice_password
          = (Return (VBool true), Scenario.users_with_alice)) as R
      by (vm_compute; reflexivity).
  split; [exact R | exact (register_then_login_button session_init _ _ _ _ _ R)].
Defined.

Lemma empty_false (s : pystr) : empty s = false <-> s <> [].
Proof. destruct s; simpl; split; congruence. Qed.

(** X8.  The Register button has five outcomes and no other: the
    warning for an empty field; the warning for a rejected password;
    the success notice, with one row added, when the username and
    the email are new; the "already exists" error when one of them is
    taken; and [UnicodeEncodeError] when one of them cannot be
    encoded.  The table changes with the success notice only, and
    the success notice is never shown without a row being added. *)
Theorem register_button_outcomes (t : users_table) (username email password : pystr) :
  ((username = [] \/ email = [] \/ password = [])
   /\ register_button t username email password = (Return FillAllFields, t))
  \/ (username <> [] /\ email <> [] /\ password <> []
      /\ ((validate_password password = false
           /\ register_button t username email password = (Return WeakPassword, t))
          \/ (validate_password password = true
              /\ (forall r, In r (u_rows t) ->
                            u_username r <> username /\ u_email r <> email)
              /\ exists h,
                  hash_password password = Return h
                  /\ register_button t username email password
                     = (Return RegistrationSuccessful,
                        mk_users (u_rows t ++ [mk_user (u_seq t + 1) username email h])
                                 (u_seq t + 1)))
          \/ (validate_password password = true
              /\ (exists r, In r (u_rows t)
                            /\ (u_username r = username \/ u_email r = email))
              /\ register_button t username email password
                 = (Return AlreadyExists, t))
          \/ (validate_password password = true
              /\ (forallb encodable username = false
                  \/ forallb encodable email = false)
              /\ register_button t username email password
                 = (Raise UnicodeEncodeError, t)))).
Proof.
  unfold register_button.
  destruct (empty username) eqn:Eu.
  { left. split; [|reflexivity]. left. now destruct username. }
  destruct (empty email) eqn:Ee.
  { left. split; [|reflexivity]. right. left. now destruct email. }
  destruct (empty password) eqn:Ep.
  { left. split; [|reflexivity]. right. right. now destruct password. }
  right. apply empty_false in Eu, Ee, Ep. simpl.
  split; [assumption|]. split; [assumption|]. split; [assumption|].
  destruct (validate_password password) eqn:V; simpl; [right | left; auto].
  destruct (register_user_accepted t username email _ V)
    as [(F & _ & _ & h & Hh & R)|[[D R]|[U R]]]; rewrite R; simpl.
  - left. eauto.
  - right. left. auto.
  - right. right. auto.
Qed.

(** X9.  The Reset Password button has four outcomes and no other:
    the warning for an empty field, the warning for a rejected
    password, the success notice, and [UnicodeEncodeError] for an
    email that cannot be encoded.  It shows the success notice
    whether or not a row has the email, and never "Email not found". *)
Theorem reset_button_outcomes (t : users_table) (email new_password : pystr) :
  ((email = [] \/ new_password = [])
   /\ reset_button t email new_password = (Return FillAllFields, t))
  \/ (email <> [] /\ new_password <> []
      /\ ((validate_password new_password = false
           /\ reset_button t email new_password = (Return WeakPassword, t))
          \/ (validate_password new_password = true
              /\ forallb encodable email = true
              /\ exists t',
                  reset_button t email new_password = (Return ResetSuccessful, t'))
          \/ (validate_password new_password = true
              /\ forallb encodable email = false
              /\ reset_button t email new_password = (Raise UnicodeEncodeError, t)))).
Proof.
  unfold reset_button.
  destruct (empty email) eqn:Ee.
  { left. split; [|reflexivity]. left. now destruct email. }
  destruct (empty new_password) eqn:Ep.
  { left. split; [|reflexivity]. right. now destruct new_password. }
  right. apply empty_false in Ee, Ep. simpl.
  split; [assumption|]. split; [assumption|].
  destruct (validate_password new_password) eqn:V; simpl; [right | left; auto].
  unfold reset_password. rewrite V. simpl.
  destruct (validate_password_hashes _ V) as [h Hh]. rewrite Hh.
  unfold update_password. rewrite (bind_text_digest _ _ Hh). simpl.
  destruct (bind_text_cases email) as [[E B]|[E B]]; rewrite B; simpl.
  - left. eauto.
  - right. auto.
Qed.

(* ----------------------------------------------------------------- *)
(** ** The category of an expense *)

Lemma lstrip_decomp (s : pystr) :
  exists pre, s = pre ++ lstrip s /\ forallb isspace pre = true.
Proof.
  induction s as [|c s (pre & E & F)]; [now exists []|]. simpl.
  destruct (isspace c) eqn:Ec.
  - exists (c :: pre). simpl. rewrite Ec, F. split; [congruence | reflexivity].
  - now exists [].
Qed.

Lemma lstrip_head (s : pystr) c r : lstrip s = c :: r -> isspace c = false.
Proof.
  induction s as [|d s IH]; simpl; [discriminate|].
  destruct (isspace d) eqn:Ed; [exact IH|]. intros H. inversion H. now subst.
Qed.

Lemma lstrip_blank_nil (s : pystr) : forallb isspace s = true -> lstrip s = [].
Proof.
  induction s as [|c s IH]; simpl; [reflexivity|].
  destruct (isspace c); simpl; [exact IH | discriminate].
Qed.

Lemma rstrip_decomp (s : pystr) :
  exists suf, s = rstrip s ++ suf /\ forallb isspace suf = true.
Proof.
  unfold rstrip. destruct (lstrip_decomp (rev s)) as (pre & E & F).
  exists (rev pre). rewrite forallb_rev. split; [|assumption].
  rewrite <- rev_app_distr, <- E. now rewrite rev_involutive.
Qed.

(** From inside a token, [split] reads up to the next whitespace or
    the end. *)
Lemma split_from_run (s : pystr) :
  forall cur, cur <> [] ->
    exists run rest toks,
      s = run ++ rest
      /\ existsb isspace run = false
      /\ (rest = [] \/ exists c r, rest = c :: r /\ isspace c = true)
      /\ split_from cur s = (rev cur ++ run) :: toks.
Proof.
  induction s as [|c s IH]; intros cur Hcur.
  - exists [], [], []. simpl. rewrite app_nil_r.
    destruct cur; [contradiction|]. auto.
  - simpl. destruct (isspace c) eqn:Ec.
    + exists [], (c :: s), (split_from [] s). rewrite app_nil_r.
      destruct cur; [contradiction|]. repeat split; eauto.
    + destruct (IH (c :: cur)) as (run & rest & toks & E & F & R & S);
        [discriminate|].
      exists (c :: run), rest, toks. simpl. rewrite Ec, F. subst s.
      repeat split; auto. rewrite S. simpl. now rewrite <- app_assoc.
Qed.

(** The token that [strip().split()[0]] returns: the first run of
    characters that are not whitespace. *)
Lemma first_token_return (s tok : pystr) :
  first_token s = Return tok ->
  exists pre post,
    s = pre ++ tok ++ post
    /\ forallb isspace pre = true
    /\ tok <> []
    /\ existsb isspace tok = false
    /\ (post = [] \/ exists c r, post = c :: r /\ isspace c = true).
Proof.
  unfold first_token, split, strip.
  destruct (lstrip_decomp s) as (pre & Es & Fpre).
  destruct (rstrip_decomp (lstrip s)) as (suf & El & Fsuf).
  destruct (rstrip (lstrip s)) as [|c r] eqn:Em; [discriminate|].
  assert (isspace c = false) as Ec.
  { apply (lstrip_head s c (r ++ suf)). exact El. }
  simpl. rewrite Ec.
  destruct (split_from_run r [c]) as (run & rest & toks & Er & Frun & Hrest & S);
    [discriminate|].
  rewrite S. simpl. intros H. inversion H; subst tok; clear H.
  exists pre, (rest ++ suf).
  split.
  { rewrite Es at 1. rewrite El. subst r. simpl. now rewrite <- !app_assoc. }
  split; [assumption|]. split; [discriminate|].
  split; [simpl; now rewrite Ec|].
  destruct Hrest as [->|(c' & r' & -> & Hc')].
  - simpl. destruct suf as [|c' suf']; [now left|]. right.
    simpl in Fsuf. apply andb_true_iff in Fsuf. destruct Fsuf. eauto.
  - right. simpl. eauto.
Qed.

(** X10.  The categorization step [strip().split()[0]] has two
    outcomes.  On a string of whitespace only, the empty one among
    them, it raises [IndexError]; on any other string it returns the
    first run of characters that are not whitespace: a token that is
    not empty, holds no whitespace, follows whitespace only, and is
    followed by whitespace or by the end. *)
Theorem first_token_outcomes (s : pystr) :
  (forallb isspace s = true /\ first_token s = Raise IndexError)
  \/ (exists pre tok post,
         s = pre ++ tok ++ post
         /\ forallb isspace pre = true
         /\ tok <> []
         /\ existsb isspace tok = false
         /\ (post = [] \/ exists c r, post = c :: r /\ isspace c = true)
         /\ first_token s = Return tok).
Proof.
  destruct (first_token s) as [tok|c] eqn:E.
  - right. destruct (first_token_return _ _ E) as (pre & post & H).
    exists pre, tok, post. tauto.
  - left. assert (c = IndexError) as ->.
    { unfold first_token in E. destruct (split (strip s)); now inversion E. }
    split; [now apply first_token_raises_iff | reflexivity].
Qed.

Lemma run_unique (a a' b b' : pystr) :
  a ++ b = a' ++ b' ->
  existsb isspace a = false -> existsb isspace a' = false ->
  (b = [] \/ exists c r, b = c :: r /\ isspace c = true) ->
  (b' = [] \/ exists c r, b' = c :: r /\ isspace c = true) ->
  a = a'.
Proof.
  revert a'. induction a as [|x a IH]; intros [|y a'] E Fa Fa' Hb Hb'; simpl in *.
  - reflexivity.
  - exfalso. apply orb_false_iff in Fa'. destruct Fa' as [Fy _].
    destruct Hb as [->|(c & r & -> & Hc)]; [discriminate|].
    inversion E; subst. congruence.
  - exfalso. apply orb_false_iff in Fa. destruct Fa as [Fx _].
    destruct Hb' as [->|(c & r & -> & Hc)]; [discriminate|].
    inversion E; subst. congruence.
  - inversion E; subst. apply orb_false_iff in Fa, Fa'.
    destruct Fa as [_ Fa], Fa' as [_ Fa']. f_equal. now apply (IH a').
Qed.

(** The first token of an error string of the gateway is ['Error:']. *)
Lemma first_token_error (msg : pystr) :
  first_token (error_prefix ++ msg) = Return (str "Error:").
Proof.
  destruct (first_token (error_prefix ++ msg)) as [tok|c] eqn:E.
  - f_equal. destruct (first_token_return _ _ E) as (pre & post & Es & Fpre & _ & Ftok & Hpost).
    destruct pre as [|p pre].
    + simpl in Es. apply (run_unique tok (str "Error:") post (ch " " :: msg));
        auto.
      right. exists (ch " "), msg. split; reflexivity.
    + exfalso. simpl in Fpre. apply andb_true_iff in Fpre. destruct Fpre as [Fp _].
      inversion Es; subst p. vm_compute in Fp. discriminate.
  - exfalso. assert (c = IndexError) as ->.
    { unfold first_token in E. destruct (split (strip _)); now inversion E. }
    apply first_token_raises_iff in E. simpl in E. discriminate.
Qed.

(* ----------------------------------------------------------------- *)
(** ** The owner of an expense, as SQLite stores and compares it *)

Lemma real_eqb_refl (r : real) : Sqlite.real_eqb r r = true.
Proof. destruct r as [n d|[|]]; simpl; [apply Z.eqb_refl | reflexivity..]. Qed.

Lemma real_eqb_sym (r r' : real) : Sqlite.real_eqb r r' = Sqlite.real_eqb r' r.
Proof.
  destruct r as [n d|b], r' as [n' d'|b']; simpl; try reflexivity.
  - apply Z.eqb_sym.
  - now destruct b, b'.
Qed.

Lemma equal_sym (a b : sqlval) : Sqlite.equal a b = Sqlite.equal b a.
Proof.
  destruct a as [x|r|s], b as [y|r'|s']; unfold Sqlite.equal; try reflexivity.
  - apply Z.eqb_sym.
  - apply real_eqb_sym.
  - apply real_eqb_sym.
  - apply real_eqb_sym.
  - apply eqb_sym.
Qed.

(** Turning a number into an integer does not change what it compares
    equal to. *)
Lemma equal_integer_of_real (r : real) (v : sqlval) :
  Sqlite.equal (Sqlite.integer_of_real r) v = Sqlite.equal (SqlReal r) v.
Proof.
  destruct r as [n d|b]; [|reflexivity]. unfold Sqlite.integer_of_real.
  destruct (n mod Z.pos d =? 0)%Z eqn:M; [|reflexivity].
  destruct (_ <? _)%Z; [|reflexivity]. destruct (_ <? _)%Z; [|reflexivity].
  apply Z.eqb_eq in M. pose proof (Z.div_mod n (Z.pos d) ltac:(lia)) as D.
  rewrite M, Z.add_0_r in D.
  destruct v as [y|[n' d'|b]|s]; simpl; try reflexivity.
  - destruct (n / Z.pos d =? y)%Z eqn:E.
    + apply Z.eqb_eq in E. symmetry. apply Z.eqb_eq. lia.
    + apply Z.eqb_neq in E. symmetry. apply Z.eqb_neq. nia.
  - destruct (n / Z.pos d * Z.pos d' =? n' * 1)%Z eqn:E.
    + apply Z.eqb_eq in E. symmetry. apply Z.eqb_eq. nia.
    + apply Z.eqb_neq in E. symmetry. apply Z.eqb_neq. nia.
Qed.

(** The stored owner compares as the bound text does. *)
Lemma equal_integer_affinity {R : Rounding} (name : pystr) (v : sqlval) :
  Sqlite.equal (integer_affinity name) v = Sqlite.equal (comparison_affinity name) v.
Proof.
  unfold integer_affinity, comparison_affinity, Sqlite.applyNumericAffinity.
  destruct (Sqlite.parse name) as [n|]; [|reflexivity].
  destruct (_ && _ && _); [reflexivity|]. apply equal_integer_of_real.
Qed.

Lemma equal_refl (v : sqlval) : Sqlite.equal v v = true.
Proof.
  destruct v as [x|r|s]; simpl;
    [apply Z.eqb_refl | apply real_eqb_refl | apply eqb_refl].
Qed.

(** A user reads the rows that were stored under their own name. *)
Lemma equal_own {R : Rounding} (name : pystr) :
  Sqlite.equal (integer_affinity name) (comparison_affinity name) = true.
Proof. rewrite equal_integer_affinity. apply equal_refl. Qed.

(** A text that is not written as a number is stored and compared as
    it is. *)
Lemma affinity_text {R : Rounding} (bTryForInt : bool) (name : pystr) :
  Sqlite.parse name = None -> Sqlite.applyNumericAffinity bTryForInt name = SqlText name.
Proof. unfold Sqlite.applyNumericAffinity. now intros ->. Qed.

(** What is stored or compared for a text that is written as a number
    is a number. *)
Lemma affinity_number {R : Rounding} (bTryForInt : bool) (name : pystr) (n : Sqlite.decimal) :
  Sqlite.parse name = Some n ->
  forall s, Sqlite.applyNumericAffinity bTryForInt name <> SqlText s.
Proof.
  unfold Sqlite.applyNumericAffinity. intros -> s.
  destruct (_ && _ && _); [discriminate|].
  destruct bTryForInt; [|discriminate].
  destruct (match Sqlite.exact n with Some v => Ratio v 1 | None => rounded name end)
    as [m d|b]; simpl; [|discriminate].
  destruct (_ && _ && _); discriminate.
Qed.

(** Two different names, one of which is not written as a number,
    never compare equal. *)
Lemma equal_other_text {R : Rounding} (name other : pystr) :
  Sqlite.parse name = None \/ Sqlite.parse other = None ->
  other <> name ->
  Sqlite.equal (integer_affinity name) (comparison_affinity other) = false.
Proof.
  intros P Hne. unfold integer_affinity, comparison_affinity.
  destruct (Sqlite.parse name) as [n|] eqn:Pn,
           (Sqlite.parse other) as [o|] eqn:Po.
  - destruct P; discriminate.
  - rewrite (affinity_text false other Po).
    pose proof (affinity_number true name n Pn) as N.
    destruct (Sqlite.applyNumericAffinity true name) as [x|r|s];
      [reflexivity | reflexivity | now elim (N s)].
  - rewrite (affinity_text true name Pn).
    pose proof (affinity_number false other o Po) as N.
    destruct (Sqlite.applyNumericAffinity false other) as [x|r|s];
      [reflexivity | reflexivity | now elim (N s)].
  - rewrite (affinity_text true name Pn), (affinity_text false other Po). simpl.
    apply eqb_neq. congruence.
Qed.

(** Names that are written as numbers, and names that are not: what
    the column stores for them, whatever the floating point. *)
Example integer_affinity_examples {R : Rounding} :
  integer_affinity (str "alice") = SqlText (str "alice")
  /\ integer_affinity (str "007") = SqlInteger 7
  /\ integer_affinity (str " 7 ") = SqlInteger 7
  /\ integer_affinity (str "+7") = SqlInteger 7
  /\ integer_affinity (str "-7") = SqlInteger (-7)
  /\ integer_affinity (str "7.0") = SqlInteger 7
  /\ integer_affinity (str "70e-1") = SqlInteger 7
  /\ integer_affinity (str "1e2") = SqlInteger 100
  /\ integer_affinity (str "5.") = SqlInteger 5
  /\ integer_affinity (str "-0") = SqlInteger 0
  /\ integer_affinity (str "9223372036854775807") = SqlInteger 9223372036854775807
  /\ integer_affinity (str "9007199254740993") = SqlInteger 9007199254740993
  /\ integer_affinity (str "9223372036854775808")
     = Sqlite.integer_of_real (rounded (str "9223372036854775808"))
  /\ integer_affinity (str "7.5") = Sqlite.integer_of_real (rounded (str "7.5"))
  /\ integer_affinity (str "7abc") = SqlText (str "7abc")
  /\ integer_affinity (str "0x10") = SqlText (str "0x10")
  /\ integer_affinity (str "1e") = SqlText (str "1e")
  /\ integer_affinity (str ".") = SqlText (str ".")
  /\ integer_affinity (str "7 8") = SqlText (str "7 8")
  /\ integer_affinity (str "") = SqlText (str "").
Proof. repeat (apply conj; [reflexivity|]). reflexivity. Qed.

(** The names ['007'] and ['7'] are one owner; ['alice'] and ['Alice']
    are two. *)
Example comparison_examples {R : Rounding} :
  Sqlite.equal (integer_affinity (str "007")) (comparison_affinity (str "7")) = true
  /\ Sqlite.equal (integer_affinity (str "7")) (comparison_affinity (str "7.0")) = true
  /\ Sqlite.equal (integer_affinity (str "1e2")) (comparison_affinity (str "100")) = true
  /\ Sqlite.equal (integer_affinity (str "7abc")) (comparison_affinity (str "7")) = false
  /\ Sqlite.equal (integer_affinity (str "alice")) (comparison_affinity (str "Alice"))
     = false.
Proof. repeat (apply conj; [reflexivity|]). reflexivity. Qed.

(* ----------------------------------------------------------------- *)
(** ** Add Expense, as a whole *)

Lemma bind_text_encodable (s : pystr) :
  forallb encodable s = true -> bind_text s = Return s.
Proof.
  intros H. destruct (bind_text_cases s) as [[_ B]|[E _]]; [exact B | congruence].
Qed.

Lemma first_token_encodable (s tok : pystr) :
  first_token s = Return tok ->
  forallb encodable s = true -> forallb encodable tok = true.
Proof.
  intros H F. destruct (first_token_return _ _ H) as (pre & post & -> & _).
  rewrite !forallb_app in F. apply andb_true_iff in F. destruct F as [_ F].
  apply andb_true_iff in F. now destruct F.
Qed.

(** X11.  When the call of the generative service fails with an
    exception that derives from [Exception], a logged-in user's
    expense is stored all the same, under the category ['Error:'],
    the first word of the gateway's error string.  Its owner is what
    the column makes of the username. *)
Theorem add_expense_failed_call {amount : Type} {R : Rounding}
        (g : genai) (s : session_state.t)
        (t : expenses_table amount) (d : date) (amt : amount)
        (descr name : pystr) (c : exc_class) (msg : pystr) :
  get_model g = Ok tt ->
  generate_content g (categorize_prompt descr) = Fail c msg ->
  isinstance_Exception c = true ->
  session_state.username s = Some name ->
  forallb encodable name = true ->
  forallb encodable descr = true ->
  add_expense g s t d amt descr
  = (Return (ExpenseAdded (str "Error:")),
     mk_expenses (e_rows t ++ [mk_expense (e_seq t + 1) (integer_affinity name) d
                                          (str "Error:") amt descr])
                 (e_seq t + 1)).
Proof.
  intros M F E U En Ed. unfold add_expense, get_gemini_response.
  rewrite M, F, E. cbv beta iota delta [bind]. rewrite first_token_error.
  unfold insert_expense. rewrite U, (bind_text_encodable _ En),
    (bind_text_encodable _ Ed). reflexivity.
Qed.

Lemma add_expense_failed_call_witness :
  get_model (Scenario.failing RuntimeError (str "quota exceeded")) = Ok tt
  /\ generate_content (Scenario.failing RuntimeError (str "quota exceeded"))
                      (categorize_prompt (str "Uber ride"))
     = Fail RuntimeError (str "quota exceeded")
  /\ isinstance_Exception RuntimeError = true
  /\ session_state.username Scenario.alice_session = Some Scenario.alice
  /\ forallb encodable Scenario.alice = true
  /\ forallb encodable (str "Uber ride") = true
  /\ add_expense (R := Scenario.rounding)
                 (Scenario.failing RuntimeError (str "quota exceeded"))
                 Scenario.alice_session (@no_expenses Z) Scenario.jan5 250%Z
                 (str "Uber ride")
     = (Return (ExpenseAdded (str "Error:")),
        mk_expenses (e_rows no_expenses
                     ++ [mk_expense (e_seq (@no_expenses Z) + 1)%Z
                                    (integer_affinity (R := Scenario.rounding)
                                                      Scenario.alice)
                                    Scenario.jan5
                                    (str "Error:") 250%Z (str "Uber ride")])
                    (e_seq (@no_expenses Z) + 1)%Z).
Proof.
  repeat (split; [reflexivity|]).
  exact (add_expense_failed_call (R := Scenario.rounding)
           (Scenario.failing RuntimeError (str "quota exceeded"))
           Scenario.alice_session no_expenses Scenario.jan5 250%Z
           (str "Uber ride") Scenario.alice RuntimeError (str "quota exceeded")
           eq_refl eq_refl eq_refl eq_refl eq_refl eq_refl).
Defined.

(** What a successful INSERT of an expense wrote. *)
Lemma insert_expense_inv {amount} {R : Rounding} (t t' : expenses_table amount)
      (owner : option pystr) d cat (amt : amount) descr :
  insert_expense t owner d cat amt descr = (Return tt, t') ->
  exists name,
    owner = Some name
    /\ bind_text name = Return name
    /\ t' = mk_expenses
              (e_rows t ++ [mk_expense (e_seq t + 1) (integer_affinity name)
                                       d cat amt descr])
              (e_seq t + 1).
Proof.
  unfold insert_expense. destruct owner as [name|]; [|discriminate].
  destruct (bind_text name) as [u|] eqn:Eu; simpl; [|discriminate].
  destruct (bind_text cat) as [c|] eqn:Ec; simpl; [|discriminate].
  destruct (bind_text descr) as [x|] eqn:Ex; simpl; [|discriminate].
  apply bind_text_inv in Ec, Ex. pose proof (bind_text_inv _ _ Eu). subst.
  intros H. inversion H. eauto.
Qed.

Lemma insert_expense_unchanged {amount} {R : Rounding} (t t' : expenses_table amount)
      (owner : option pystr) d cat (amt : amount) descr c :
  insert_expense t owner d cat amt descr = (Raise c, t') -> t' = t.
Proof.
  unfold insert_expense. destruct owner as [name|]; [|intros H; now inversion H].
  destruct (bind _ _) as [[[u c0] x]|]; intros H; now inversion H.
Qed.

(** X12.  A submitted Add Expense form does one of two things.  It
    stores one row, with the next id, as owner what the column makes
    of the session's username (the username itself, unless it is
    written as a number), the date, the amount and the description as
    submitted and the first token of the gateway's answer as
    category, and shows that category; or an exception leaves the
    handler and the table is as it was. *)
Theorem add_expense_outcomes {amount : Type} {R : Rounding}
        (g : genai) (s : session_state.t)
        (t : expenses_table amount) (d : date) (amt : amount) (descr : pystr) :
  (exists answer cat name,
      get_gemini_response g (categorize_prompt descr) = Return answer
      /\ first_token answer = Return cat
      /\ session_state.username s = Some name
      /\ (Sqlite.parse name = None -> integer_affinity name = SqlText name)
      /\ add_expense g s t d amt descr
         = (Return (ExpenseAdded cat),
            mk_expenses
              (e_rows t ++ [mk_expense (e_seq t + 1) (integer_affinity name)
                                       d cat amt descr])
              (e_seq t + 1)))
  \/ (exists c, add_expense g s t d amt descr = (Raise c, t)).
Proof.
  unfold add_expense.
  destruct (get_gemini_response g (categorize_prompt descr)) as [answer|c] eqn:G;
    simpl; [|right; eauto].
  destruct (first_token answer) as [cat|c] eqn:F; [|right; eauto].
  destruct (insert_expense t (session_state.username s) d cat amt descr)
    as [[[]|c] t'] eqn:I.
  - left. apply insert_expense_inv in I. destruct I as (name & U & _ & ->).
    exists answer, cat, name. repeat split; auto. apply affinity_text.
  - right. apply insert_expense_unchanged in I. subst t'. eauto.
Qed.

(* ----------------------------------------------------------------- *)
(** ** Add Expense, then the Dashboard *)

(** What the Dashboard reads after one more row was stored. *)
Lemma read_expenses_snoc {amount} {R : Rounding} (rows : list (expense_row amount))
      (seq seq' : Z) (r : expense_row amount) (other : pystr) :
  read_expenses (mk_expenses (rows ++ [r]) seq') (Some other)
  = (df <- read_expenses (mk_expenses rows seq) (Some other) ;;
     Return (df ++ if Sqlite.equal (user_id r) (comparison_affinity other)
                   then [r] else [])).
Proof.
  unfold read_expenses. destruct (bind_text other) as [o|] eqn:Bo; simpl;
    [|reflexivity].
  apply bind_text_inv in Bo. subst o. rewrite filter_app. simpl.
  now destruct (Sqlite.equal _ _).
Qed.

(** X13.  After an expense was added in a session, the Dashboard of
    that session reads the rows it read before followed by the new
    row, and shows them with their totals, not the warning.  The
    Dashboard of another username reads the new row as well exactly
    when SQLite compares the stored owner equal to that username, as
    it does for ['007'] and ['7']; when one of the two usernames is
    not written as a number and they differ, it reads what it read
    before. *)
Theorem add_expense_then_dashboard {amount : Type} {R : Rounding}
        (sums : summation amount)
        (g : genai) (s : session_state.t) (t t' : expenses_table amount)
        (d : date) (amt : amount) (descr cat : pystr) :
  add_expense g s t d amt descr = (Return (ExpenseAdded cat), t') ->
  exists name df,
    let row := mk_expense (e_seq t + 1) (integer_affinity name) d cat amt descr in
    session_state.username s = Some name
    /\ read_expenses t (Some name) = Return df
    /\ read_expenses t' (Some name) = Return (df ++ [row])
    /\ dashboard_page sums s t'
       = Return (Charts (df ++ [row])
                        (category_totals sums (df ++ [row]))
                        (monthly_totals sums (df ++ [row]))
                        (series_sum sums (map e_amount (df ++ [row]))))
    /\ (forall other,
           read_expenses t' (Some other)
           = (rows <- read_expenses t (Some other) ;;
              Return (rows ++ if Sqlite.equal (integer_affinity name)
                                              (comparison_affinity other)
                              then [row] else [])))
    /\ (forall other,
           Sqlite.parse name = None \/ Sqlite.parse other = None ->
           other <> name ->
           read_expenses t' (Some other) = read_expenses t (Some other)).
Proof.
  intros H. unfold add_expense in H.
  destruct (bind _ _) as [cat'|]; [|discriminate].
  destruct (insert_expense t (session_state.username s) d cat' amt descr)
    as [[[]|c] t1] eqn:I; [|discriminate].
  inversion H; subst cat' t1; clear H.
  apply insert_expense_inv in I. destruct I as (name & U & B & ->).
  assert (forall other,
             read_expenses
               (mk_expenses
                  (e_rows t ++ [mk_expense (e_seq t + 1) (integer_affinity name)
                                           d cat amt descr])
                  (e_seq t + 1)) (Some other)
             = (rows <- read_expenses t (Some other) ;;
                Return (rows ++ if Sqlite.equal (integer_affinity name)
                                                (comparison_affinity other)
                                then [mk_expense (e_seq t + 1) (integer_affinity name)
                                                 d cat amt descr]
                                else []))) as Other.
  { intros other. rewrite (read_expenses_snoc (e_rows t) (e_seq t)).
    now destruct t. }
  exists name,
    (filter (fun r => Sqlite.equal (user_id r) (comparison_affinity name)) (e_rows t)).
  cbv zeta.
  assert (read_expenses t (Some name)
          = Return (filter (fun r => Sqlite.equal (user_id r) (comparison_affinity name))
                           (e_rows t))) as Before
      by (unfold read_expenses; now rewrite B).
  assert (read_expenses
            (mk_expenses
               (e_rows t ++ [mk_expense (e_seq t + 1) (integer_affinity name)
                                        d cat amt descr])
               (e_seq t + 1)) (Some name)
          = Return (filter (fun r => Sqlite.equal (user_id r) (comparison_affinity name))
                           (e_rows t)
                    ++ [mk_expense (e_seq t + 1) (integer_affinity name) d cat amt descr]))
    as After.
  { rewrite Other, Before. simpl. now rewrite equal_own. }
  split; [assumption|]. split; [exact Before|]. split; [exact After|].
  split; [|split].
  - unfold dashboard_page. rewrite U, After. simpl.
    destruct (filter _ (e_rows t)); reflexivity.
  - exact Other.
  - intros other P Hne. rewrite Other, (equal_other_text _ _ P Hne).
    destruct (read_expenses t (Some other)); simpl; [|reflexivity].
    now rewrite app_nil_r.
Qed.

Lemma add_expense_then_dashboard_witness :
  add_expense (R := Scenario.rounding)
              (Scenario.answering (str "Transport")) Scenario.alice_session
              (@no_expenses Z) Scenario.jan5 250%Z (str "Uber ride")
  = (Return (ExpenseAdded (str "Transport")),
     mk_expenses [mk_expense 1%Z (SqlText Scenario.alice) Scenario.jan5
                             (str "Transport") 250%Z (str "Uber ride")] 1%Z)
  /\ exists cats months total,
      dashboard_page (R := Scenario.rounding) exact_sums Scenario.alice_session
        (mk_expenses [mk_expense 1%Z (SqlText Scenario.alice) Scenario.jan5
                                 (str "Transport") 250%Z (str "Uber ride")] 1%Z)
      = Return (Charts [mk_expense 1%Z (SqlText Scenario.alice) Scenario.jan5
                                   (str "Transport") 250%Z (str "Uber ride")]
                       cats months total).
Proof.
  assert (add_expense (R := Scenario.rounding)
                      (Scenario.answering (str "Transport")) Scenario.alice_session
                      (@no_expenses Z) Scenario.jan5 250%Z (str "Uber ride")
          = (Return (ExpenseAdded (str "Transport")),
             mk_expenses [mk_expense 1%Z (SqlText Scenario.alice) Scenario.jan5
                                     (str "Transport") 250%Z (str "Uber ride")] 1%Z))
    as E by reflexivity.
  split; [exact E|].
  destruct (add_expense_then_dashboard (R := Scenario.rounding) exact_sums
                                       _ _ _ _ _ _ _ _ E)
    as (name & df & U & Rd & _ & D & _).
  inversion U; subst name. inversion Rd; subst df.
  eexists _, _, _. exact D.
Defined.

(** The expense that ['007'] adds is read by the Dashboard of ['7'],
    and not by that of ['alice']. *)
Example dashboard_of_7_after_007 {R : Rounding} :
  let s007 := session_state.mk true (Some (str "007")) (Some (str "bond@x.com")) home in
  let s7 := session_state.mk true (Some (str "7")) (Some (str "seven@x.com")) home in
  let row := mk_expense 1%Z (SqlInteger 7) Scenario.jan5 (str "Transport") 250%Z
                        (str "Uber ride") in
  add_expense (Scenario.answering (str "Transport")) s007
              (@no_expenses Z) Scenario.jan5 250%Z (str "Uber ride")
  = (Return (ExpenseAdded (str "Transport")), mk_expenses [row] 1%Z)
  /\ dashboard_page exact_sums s7 (mk_expenses [row] 1%Z)
     = Return (Charts [row] [(str "Transport", 250%Z)] [((2024, 1)%Z, 250%Z)] 250%Z)
  /\ dashboard_page exact_sums Scenario.alice_session (mk_expenses [row] 1%Z)
     = Return NoExpensesYet.
Proof. repeat split. Qed.

(* ----------------------------------------------------------------- *)
(** ** Totals by category *)






(* ----------------------------------------------------------------- *)
(** ** The chatbot *)

Lemma strip_nil_iff (s : pystr) : strip s = [] <-> forallb isspace s = true.
Proof.
  split.
  - intros E. rewrite <- strip_blank, E. reflexivity.
  - intros F. unfold strip. now rewrite (lstrip_blank_nil _ F).
Qed.

(** X15.  The Get Answer button sends nothing for a question made of
    whitespace only, the empty one among them; any other question is
    passed to the gateway as it was typed, not stripped, and the
    answer of the gateway is what is shown. *)
Theorem chatbot_button_outcomes (g : genai) (user_input : pystr) :
  (forallb isspace user_input = true /\ chatbot_button g user_input = None)
  \/ (forallb isspace user_input = false
      /\ chatbot_button g user_input = Some (get_gemini_response g user_input)).
Proof.
  unfold chatbot_button. destruct (forallb isspace user_input) eqn:F.
  - left. apply strip_nil_iff in F. now rewrite F.
  - right. split; [reflexivity|].
    destruct (strip user_input) eqn:E; [|reflexivity].
    apply strip_nil_iff in E. congruence.
Qed.

(* ----------------------------------------------------------------- *)
(** ** The password policy, complete *)

(** X16.  [validate_password] accepts exactly the passwords that meet
    the policy (8 characters or more, all of them letters, digits or
    listed specials, with a lower-case letter, an upper-case letter,
    a digit and a special among them) and these passwords followed by
    one newline. *)
Theorem validate_password_accepts_exactly (password : pystr) :
  validate_password password = true <->
  Policy.meets password = true
  \/ exists w, password = w ++ [newline] /\ Policy.meets w = true.
Proof.
  rewrite validate_password_spec. split.
  - intros (w & rest & -> & [->| ->] & M).
    + left. now rewrite app_nil_r.
    + right. eauto.
  - intros [M|(w & -> & M)].
    + exists password, []. rewrite app_nil_r. auto.
    + exists w, [newline]. auto.
Qed.

(* ----------------------------------------------------------------- *)
(** ** Login *)

Lemma NoDup_map_unique {A B} (f : A -> B) (l : list A) (a b : A) :
  NoDup (map f l) -> In a l -> In b l -> f a = f b -> a = b.
Proof.
  induction l as [|x l IH]; simpl; intros ND Ha Hb E; [destruct Ha|].
  inversion ND as [|? ? Hn ND']; subst.
  destruct Ha as [->|Ha], Hb as [->|Hb]; auto.
  - exfalso. apply Hn. rewrite E. now apply in_map.
  - exfalso. apply Hn. rewrite <- E. now apply in_map.
Qed.

(** X17.  In a table whose emails are all different, login with a
    password that has a digest and an email that encodes returns a
    row exactly when that row is stored with that email and that
    digest; it then is the only row with the email. *)
Theorem login_user_returns (t : users_table) (email password h : pystr)
        (r : user_row) :
  users_ok t ->
  hash_password password = Return h ->
  forallb encodable email = true ->
  (login_user t email password = Return (Some r) <->
   In r (u_rows t) /\ u_email r = email /\ u_password r = h)
  /\ (login_user t email password = Return (Some r) ->
      forall r', In r' (u_rows t) -> u_email r' = email -> r' = r).
Proof.
  intros (_ & _ & Ne & _) Hh Ee.
  assert (login_user t email password
          = Return (find (fun r => eqb (u_email r) email && eqb (u_password r) h)
                         (u_rows t))) as L.
  { unfold login_user, select_user. rewrite Hh. simpl.
    now rewrite (bind_text_encodable _ Ee), (bind_text_digest _ _ Hh). }
  rewrite L.
  assert (Return (find (fun r => eqb (u_email r) email && eqb (u_password r) h)
                       (u_rows t)) = Return (Some r)
          -> In r (u_rows t) /\ u_email r = email /\ u_password r = h) as Sound.
  { intros H. inversion H as [F]. apply find_some in F. destruct F as [Hin F].
    apply andb_true_iff in F. destruct F as [F1 F2].
    apply eqb_eq in F1, F2. auto. }
  split; [split; [exact Sound|] |].
  - intros (Hin & E1 & E2).
    destruct (find _ (u_rows t)) as [r0|] eqn:F.
    + apply find_some in F. destruct F as [Hin0 F].
      apply andb_true_iff in F. destruct F as [F1 _]. apply eqb_eq in F1.
      do 2 f_equal. apply (NoDup_map_unique u_email (u_rows t)); auto. congruence.
    + exfalso. apply (find_none _ _ F) in Hin. subst.
      now rewrite !eqb_refl in Hin.
  - intros H r' Hin' E'. destruct (Sound H) as (Hin & E & _).
    apply (NoDup_map_unique u_email (u_rows t)); auto. congruence.
Qed.

Lemma login_user_returns_witness :
  users_ok Scenario.users_with_alice
  /\ hash_password Scenario.alice_password = Return Scenario.alice_digest
  /\ forallb encodable Scenario.alice_email = true
  /\ (login_user Scenario.users_with_alice Scenario.alice_email
                 Scenario.alice_password
      = Return (Some Scenario.alice_row) <->
      In Scenario.alice_row (u_rows Scenario.users_with_alice)
      /\ u_email Scenario.alice_row = Scenario.alice_email
      /\ u_password Scenario.alice_row = Scenario.alice_digest).
Proof.
  assert (users_ok Scenario.users_with_alice) as Ok.
  { unfold users_ok, Scenario.users_with_alice. simpl.
    repeat split; try lia; repeat constructor; simpl; try tauto; try lia. }
  assert (hash_password Scenario.alice_password = Return Scenario.alice_digest) as H
      by (vm_compute; reflexivity).
  split; [exact Ok|]. split; [exact H|]. split; [reflexivity|].
  exact (proj1 (login_user_returns Scenario.users_with_alice Scenario.alice_email
                  Scenario.alice_password Scenario.alice_digest Scenario.alice_row
                  Ok H eq_refl)).
Defined.
